(** * Order tracking worker: validation, throttle, order lookup and status

    A shallow embedding of the order-tracking service (the Cloudflare worker
    [src/index.js], its button-control variant and the Express server) and
    the properties of its decision logic.

    JavaScript values are modelled by typed Rocq data:
    - a string is a [string]; a property that may be [null], [undefined] or
      absent is an [option]; JavaScript truthiness of such a property is
      [truthy] (present and not the empty string);
    - a number of milliseconds since the epoch is a [Z];
    - an array is a [list]; the arrays stored in the rate limiter's [Map]
      live in an explicit heap because the code relies on aliasing. *)

From Stdlib Require Import ZArith Bool Ascii String DecimalString.
From stdpp Require Import base list strings gmap.

Local Open Scope Z_scope.

(** ** JavaScript primitives used by the worker *)

Module JS.

(** [if (x)] on a property holding a string, [null] or [undefined]. *)
Definition truthy (x : option string) : bool :=
  match x with
  | Some s => negb (String.eqb s "")
  | None => false
  end.

(** [x || y] where [x] is an object or [undefined]. *)
Definition or_else {A} (x y : option A) : option A :=
  match x with Some _ => x | None => y end.

Definition is_upper (c : ascii) : bool :=
  let n := nat_of_ascii c in (Nat.leb 65 n && Nat.leb n 90)%bool.
Definition is_lower (c : ascii) : bool :=
  let n := nat_of_ascii c in (Nat.leb 97 n && Nat.leb n 122)%bool.
Definition is_digit (c : ascii) : bool :=
  let n := nat_of_ascii c in (Nat.leb 48 n && Nat.leb n 57)%bool.

Definition lower_char (c : ascii) : ascii :=
  if is_upper c then ascii_of_nat (nat_of_ascii c + 32) else c.

(** [s.toLowerCase()] on an ASCII string: the letters A-Z are lowered, every
    other character is kept.  (On other strings JavaScript also lowers the
    cased characters outside ASCII; statements that depend on this function
    are made for ASCII strings.) *)
Fixpoint toLowerCase (s : string) : string :=
  match s with
  | EmptyString => EmptyString
  | String c s' => String (lower_char c) (toLowerCase s')
  end.

(** [s.startsWith(p)]. *)
Definition startsWith (s p : string) : bool := String.prefix p s.

(** [s.includes(p)]. *)
Fixpoint includes (s p : string) : bool :=
  if String.prefix p s then true
  else match s with
       | EmptyString => false
       | String _ s' => includes s' p
       end.

(** [s.replace(c, '')] for a one-character string pattern [c]: only the
    first occurrence is replaced. *)
Fixpoint replace_first (c : ascii) (s : string) : string :=
  match s with
  | EmptyString => EmptyString
  | String d s' => if Ascii.eqb d c then s' else String d (replace_first c s')
  end.

(** The decimal text of an integer, as a template literal prints it. *)
Definition to_string (n : Z) : string := NilZero.string_of_int (Z.to_int n).

End JS.

(** ** Regular expressions

    The two validation patterns are anchored at both ends ([^...$], no
    flags), so [RegExp.prototype.test] decides membership of the whole
    string in the language of the pattern.  Matching is by derivatives. *)

Inductive regex : Type :=
| Never
| Empty
| Class (p : ascii -> bool)
| Seq (r1 r2 : regex)
| Alt (r1 r2 : regex)
| Star (r : regex).

(** [r+] *)
Definition Plus (r : regex) : regex := Seq r (Star r).

Fixpoint nullable (r : regex) : bool :=
  match r with
  | Never => false
  | Empty => true
  | Class _ => false
  | Seq r1 r2 => nullable r1 && nullable r2
  | Alt r1 r2 => nullable r1 || nullable r2
  | Star _ => true
  end.

Fixpoint deriv (c : ascii) (r : regex) : regex :=
  match r with
  | Never => Never
  | Empty => Never
  | Class p => if p c then Empty else Never
  | Seq r1 r2 =>
      if nullable r1 then Alt (Seq (deriv c r1) r2) (deriv c r2)
      else Seq (deriv c r1) r2
  | Alt r1 r2 => Alt (deriv c r1) (deriv c r2)
  | Star r1 => Seq (deriv c r1) (Star r1)
  end.

(** [/^r$/.test(s)] *)
Fixpoint test (r : regex) (s : string) : bool :=
  match s with
  | EmptyString => nullable r
  | String c s' => test (deriv c r) s'
  end.

(** The language of a pattern, the reference for [test]. *)
Inductive Matches : regex -> string -> Prop :=
| MEmpty : Matches Empty EmptyString
| MClass p c : p c = true -> Matches (Class p) (String c EmptyString)
| MSeq r1 r2 s1 s2 :
    Matches r1 s1 -> Matches r2 s2 -> Matches (Seq r1 r2) (String.append s1 s2)
| MAltL r1 r2 s : Matches r1 s -> Matches (Alt r1 r2) s
| MAltR r1 r2 s : Matches r2 s -> Matches (Alt r1 r2) s
| MStarNil r : Matches (Star r) EmptyString
| MStarApp r s1 s2 :
    Matches r s1 -> Matches (Star r) s2 -> Matches (Star r) (String.append s1 s2).

(** ** Validation helpers ([src/index.js], lines 55-64) *)

(** [[a-zA-Z0-9\-_#]] *)
Definition order_char (c : ascii) : bool :=
  JS.is_lower c || JS.is_upper c || JS.is_digit c
  || Ascii.eqb c "-" || Ascii.eqb c "_" || Ascii.eqb c "#".

(** [\s] on an ASCII character: tab, line feed, vertical tab, form feed,
    carriage return and space.  (JavaScript's [\s] also holds white space
    outside ASCII; [validateEmail] is exact on ASCII strings, and accepts
    at least what the code accepts on the others.) *)
Definition is_space (c : ascii) : bool :=
  let n := nat_of_ascii c in (Nat.leb 9 n && Nat.leb n 13)%bool || Nat.eqb n 32.

(** [[^\s@]] *)
Definition email_char (c : ascii) : bool :=
  negb (is_space c || Ascii.eqb c "@").

Definition emailRegex : regex :=
  Seq (Plus (Class email_char))
    (Seq (Class (Ascii.eqb "@"))
       (Seq (Plus (Class email_char))
          (Seq (Class (Ascii.eqb ".")) (Plus (Class email_char))))).

Definition validateEmail (email : string) : bool := test emailRegex email.

Definition orderRegex : regex := Plus (Class order_char).

Definition validateOrderNumber (orderNumber : string) : bool :=
  test orderRegex orderNumber
  && Nat.leb 1 (String.length orderNumber)
  && Nat.leb (String.length orderNumber) 50.

(** ** Upstream data model

    The order records of the upstream [orders.json] response, restricted to
    the properties the worker reads. *)

Module LineItem.
Record t := { tracking_number : option string }.
End LineItem.

Module Fulfillment.
Record t := {
  tracking_numbers : option (list string);
  tracking_number : option string;
  trackingNumber : option string;
  line_items : option (list LineItem.t)
}.
End Fulfillment.

Module Order.
Record t := {
  name : string;
  email : option string;
  created_at : string;
  closed_at : option string;
  fulfillments : option (list Fulfillment.t)
}.
End Order.

(** ** Rate limiting ([src/index.js], lines 67-97)

    [this.requests] maps a client to an array object.  Arrays are mutable
    and shared by reference: [isAllowed] stores the filtered array in the
    map and pushes onto it afterwards.  The arrays therefore live in a heap,
    a list indexed by reference, and the map holds references. *)

Record RateLimiter := {
  requests : gmap string nat;
  arrays : list (list Z)
}.

(** [new RateLimiter()] *)
Definition newRateLimiter : RateLimiter := {| requests := ∅; arrays := [] |}.

(** Allocation of a new array object. *)
Definition alloc (a : list Z) (h : list (list Z)) : nat * list (list Z) :=
  (length h, h ++ [a]).

(** Reading an array through a reference. *)
Definition deref (h : list (list Z)) (r : nat) : list Z := default [] (h !! r).

Definition isAllowed (ip : string) (maxRequests windowMs now : Z)
    (this : RateLimiter) : bool * RateLimiter :=
  let windowStart := now - windowMs in
  (* if (!this.requests.has(ip)) this.requests.set(ip, []) *)
  let this1 :=
    match requests this !! ip with
    | Some _ => this
    | None =>
        let '(r, h) := alloc [] (arrays this) in
        {| requests := <[ip := r]> (requests this); arrays := h |}
    end in
  (* const userRequests = this.requests.get(ip) *)
  let userRequests := default 0%nat (requests this1 !! ip) in
  (* const validRequests = userRequests.filter(time => time > windowStart) *)
  let '(validRequests, h2) :=
    alloc (List.filter (fun time => windowStart <? time)
             (deref (arrays this1) userRequests))
          (arrays this1) in
  (* this.requests.set(ip, validRequests) *)
  let this2 :=
    {| requests := <[ip := validRequests]> (requests this1); arrays := h2 |} in
  if Z.of_nat (length (deref (arrays this2) validRequests)) >=? maxRequests
  then (false, this2)
  else
    (* validRequests.push(now) *)
    (true,
     {| requests := requests this2;
        arrays := <[validRequests := deref (arrays this2) validRequests ++ [now]]>
                    (arrays this2) |}).

(** What the limiter holds for a client: [this.requests.get(ip)], read
    through the heap. *)
Definition recorded (this : RateLimiter) (ip : string) : option (list Z) :=
  deref (arrays this) <$> requests this !! ip.

(** References held by the map point into the heap. *)
Definition wf (this : RateLimiter) : Prop :=
  ∀ ip r, requests this !! ip = Some r → (r < length (arrays this))%nat.

(** A run of calls with fixed limits, from a given limiter. *)
Fixpoint run (maxRequests windowMs : Z) (calls : list (string * Z))
    (this : RateLimiter) : list bool * RateLimiter :=
  match calls with
  | [] => ([], this)
  | (ip, now) :: rest =>
      let '(b, this') := isAllowed ip maxRequests windowMs now this in
      let '(bs, this'') := run maxRequests windowMs rest this' in
      (b :: bs, this'')
  end.

(** The time of the most recent call for a client. *)
Fixpoint last_call (ip : string) (calls : list (string * Z)) : option Z :=
  match calls with
  | [] => None
  | (ip', now) :: rest =>
      match last_call ip rest with
      | Some t => Some t
      | None => if decide (ip' = ip) then Some now else None
      end
  end.

Fixpoint nondecreasing (ts : list Z) : Prop :=
  match ts with
  | [] => True
  | t :: rest => Forall (fun u => t <= u) rest ∧ nondecreasing rest
  end.

(** ** Effects of a request

    A handler runs against the process-wide limiter and the upstream store.
    The world records the limiter and every upstream request issued, oldest
    first; a computation either returns a value or throws an [Error] with a
    message. *)

(** The upstream request: the [orders.json] URL differs only in its last
    parameter, [name=...] or [email=...]. *)
Inductive Query :=
| ByName (name : string)
| ByEmail (email : string).

(** An upstream response: its HTTP status and the [orders] property of its
    JSON body. *)
Record Response := {
  status : Z;
  orders : option (list Order.t)
}.

(** [response.ok] *)
Definition ok (r : Response) : bool := (200 <=? status r) && (status r <=? 299).

(** The result of [await fetch(url)]: a response, or a rejection (network
    failure) with its message. *)
Inductive Fetched :=
| Resolved (r : Response)
| Rejected (message : string).

Record World := {
  limiter : RateLimiter;
  issued : list Query
}.

Inductive Outcome (A : Type) :=
| Returned (a : A)
| Thrown (message : string).
Arguments Returned {A} a.
Arguments Thrown {A} message.

Definition M (A : Type) : Type := World -> Outcome A * World.

Definition ret {A} (a : A) : M A := fun w => (Returned a, w).

Definition throw {A} (message : string) : M A := fun w => (Thrown message, w).

Definition bind {A B} (m : M A) (k : A -> M B) : M B :=
  fun w =>
    match m w with
    | (Returned a, w') => k a w'
    | (Thrown e, w') => (Thrown e, w')
    end.

(** [try { m } catch (error) { h(error.message) }] *)
Definition try_catch {A} (m : M A) (h : string -> M A) : M A :=
  fun w =>
    match m w with
    | (Returned a, w') => (Returned a, w')
    | (Thrown e, w') => h e w'
    end.

Notation "'let*' x := m 'in' k" := (bind m (fun x => k))
  (at level 10, x name, m at level 100, k at level 200).

(** [await fetch(url, ...)] against an upstream store. *)
Definition fetch (upstream : Query -> Fetched) (q : Query) : M Response :=
  fun w =>
    let w' := {| limiter := limiter w; issued := issued w ++ [q] |} in
    match upstream q with
    | Resolved r => (Returned r, w')
    | Rejected e => (Thrown e, w')
    end.

(** A method call on the global [rateLimiter]. *)
Definition with_limiter {A} (f : RateLimiter -> A * RateLimiter) : M A :=
  fun w =>
    let '(a, l) := f (limiter w) in
    (Returned a, {| limiter := l; issued := issued w |}).

(** ** Order lookup ([src/index.js], lines 100-150) *)

(** [Array.prototype.sort] with a comparison function: a stable sort.  An
    element goes before the first element it does not compare greater
    than; a comparison that yields [NaN] counts as [+0].  This is the
    result of [Array.prototype.sort] for a consistent comparison function,
    as the one of [getOrder] is on valid dates; for an inconsistent one the
    order that JavaScript returns is implementation-defined. *)
Fixpoint insert_sorted {A} (cmp : A -> A -> Z) (x : A) (l : list A) : list A :=
  match l with
  | [] => [x]
  | y :: l' => if cmp x y <=? 0 then x :: l else y :: insert_sorted cmp x l'
  end.

Definition sort {A} (cmp : A -> A -> Z) (l : list A) : list A :=
  foldr (insert_sorted cmp) [] l.

Section Lookup.

(** [new Date(s).getTime()]; [None] is the [NaN] of an invalid date. *)
Variable Date : string -> option Z.

(** [(a, b) => new Date(b.created_at) - new Date(a.created_at)] *)
Definition by_created_desc (a b : Order.t) : Z :=
  match Date (Order.created_at b), Date (Order.created_at a) with
  | Some tb, Some ta => tb - ta
  | _, _ => 0
  end.

(** [o => o.email && o.email.toLowerCase() === email.toLowerCase()] *)
Definition email_matches (email : string) (o : Order.t) : bool :=
  JS.truthy (Order.email o)
  && match Order.email o with
     | Some e => String.eqb (JS.toLowerCase e) (JS.toLowerCase email)
     | None => false
     end.

(** [orderNumber.startsWith('#') ? orderNumber : `#${orderNumber}`] *)
Definition display_name (orderNumber : string) : string :=
  if JS.startsWith orderNumber "#" then orderNumber
  else String "#" orderNumber.

Definition getOrder (upstream : Query -> Fetched)
    (orderNumber email : option string) : M (option Order.t) :=
  (* the catch block of getOrder logs and rethrows *)
  try_catch
    (let* url :=
       (if JS.truthy orderNumber && JS.truthy email
        then ret (ByName (display_name (default "" orderNumber)))
        else if JS.truthy orderNumber
        then ret (ByName (display_name (default "" orderNumber)))
        else if JS.truthy email
        then ret (ByEmail (default "" email))
        else throw "Either orderNumber or email must be provided") in
     let* response := fetch upstream url in
     if negb (ok response)
     then throw (String.append "Shopify API error: " (JS.to_string (status response)))
     else
       (* const orders = data.orders || [] *)
       let orders := default [] (orders response) in
       if Nat.eqb (length orders) 0 then ret None
       else if JS.truthy orderNumber && JS.truthy email
       then
         let order := List.find (email_matches (default "" email)) orders in
         ret (JS.or_else order (head orders))
       else ret (head (sort by_created_desc orders)))
    (fun message => throw message).

End Lookup.

(** ** Order status

    The tracking number search is the same block of code in the three
    variants of [determineOrderStatus] ([src/index.js], lines 157-190). *)

(** The [for] loop over [fulfillment.line_items]. *)
Fixpoint line_item_tracking (items : list LineItem.t) : option string :=
  match items with
  | [] => None
  | item :: rest =>
      if JS.truthy (LineItem.tracking_number item)
      then LineItem.tracking_number item
      else line_item_tracking rest
  end.

Definition trackingNumber_of (order : Order.t) : option string :=
  (* order.fulfillments && order.fulfillments.length > 0 ? order.fulfillments[0] : null *)
  let fulfillment :=
    match Order.fulfillments order with
    | Some (f :: _) => Some f
    | _ => None
    end in
  match fulfillment with
  | None => None
  | Some f =>
      let trackingNumber :=
        match Fulfillment.tracking_numbers f with
        | Some (t :: _) => Some t
        | _ =>
            if JS.truthy (Fulfillment.tracking_number f)
            then Fulfillment.tracking_number f
            else if JS.truthy (Fulfillment.trackingNumber f)
            then Fulfillment.trackingNumber f
            else None
        end in
      (* if (!trackingNumber && fulfillment.line_items) *)
      match Fulfillment.line_items f with
      | Some items =>
          if negb (JS.truthy trackingNumber)
          then JS.or_else (line_item_tracking items) trackingNumber
          else trackingNumber
      | None => trackingNumber
      end
  end.

(** [dayjs().diff(dayjs(created), 'hour')]: the difference in milliseconds
    over 3600000, truncated towards zero; [None] is [NaN]. *)
Definition diff_hours (now : Z) (created : option Z) : option Z :=
  (fun c => Z.quot (now - c) 3600000) <$> created.

(** [hours < 48]; a comparison with [NaN] is false. *)
Definition lt_48 (hours : option Z) : bool :=
  match hours with
  | Some h => h <? 48
  | None => false
  end.

(** *** The worker with button control ([src/unnamed/part_000], lines
    153-241) *)

Module ButtonWorker.

Record StatusInfo := {
  status : string;
  trackingNumber : option string;
  deliveredAt : option string;
  buttonsDisabled : bool;
  disabledReason : option string
}.

Section Status.
(** [dayjs(s).valueOf()]; [None] is [NaN]. *)
Variable dayjs : string -> option Z.

Definition determineOrderStatus (now : Z) (order : Order.t) : StatusInfo :=
  let trackingNumber := trackingNumber_of order in
  if JS.truthy (Order.closed_at order) then
    {| status := "Order Delivered";
       trackingNumber := trackingNumber;
       deliveredAt := Order.closed_at order;
       buttonsDisabled := true;
       disabledReason := Some "Order has been delivered" |}
  else if JS.truthy trackingNumber then
    {| status := "In Transit";
       trackingNumber := trackingNumber;
       deliveredAt := None;
       buttonsDisabled := true;
       disabledReason := Some "Order is in transit" |}
  else
    let hours := diff_hours now (dayjs (Order.created_at order)) in
    if lt_48 hours then
      {| status := "Order Processing";
         trackingNumber := None;
         deliveredAt := None;
         buttonsDisabled := false;
         disabledReason := None |}
    else
      {| status := "In Transit";
         trackingNumber := None;
         deliveredAt := None;
         buttonsDisabled := true;
         disabledReason := Some "Order is in transit (48+ hours)" |}.
End Status.

End ButtonWorker.

(** *** The worker ([src/index.js], lines 153-232)

    Its result object has the three properties [status], [trackingNumber]
    and [deliveredAt] only. *)

Module Worker.

Record StatusInfo := {
  status : string;
  trackingNumber : option string;
  deliveredAt : option string
}.

(** Reading [statusInfo.buttonsDisabled] or [statusInfo.disabledReason]
    on this object gives [undefined]. *)
Definition buttonsDisabled (info : StatusInfo) : option bool := None.
Definition disabledReason (info : StatusInfo) : option string := None.

Section Status.
Variable dayjs : string -> option Z.

Definition determineOrderStatus (now : Z) (order : Order.t) : StatusInfo :=
  let trackingNumber := trackingNumber_of order in
  if JS.truthy (Order.closed_at order) then
    {| status := "Order Delivered";
       trackingNumber := trackingNumber;
       deliveredAt := Order.closed_at order |}
  else if JS.truthy trackingNumber then
    {| status := "In Transit";
       trackingNumber := trackingNumber;
       deliveredAt := None |}
  else
    let hours := diff_hours now (dayjs (Order.created_at order)) in
    if lt_48 hours then
      {| status := "Order Processing";
         trackingNumber := None;
         deliveredAt := None |}
    else
      {| status := "In Transit";
         trackingNumber := None;
         deliveredAt := None |}.
End Status.

End Worker.

(** *** The Express server ([src/unnamed/part_003], lines 152-231)

    The delivered check comes before the tracking number search. *)

Module Server.

Record StatusInfo := {
  status : string;
  trackingNumber : option string;
  deliveredAt : option string
}.

Definition buttonsDisabled (info : StatusInfo) : option bool := None.
Definition disabledReason (info : StatusInfo) : option string := None.

Section Status.
Variable dayjs : string -> option Z.

Definition determineOrderStatus (now : Z) (order : Order.t) : StatusInfo :=
  if JS.truthy (Order.closed_at order) then
    {| status := "Order Delivered";
       trackingNumber := None;
       deliveredAt := Order.closed_at order |}
  else
    let trackingNumber := trackingNumber_of order in
    if JS.truthy trackingNumber then
      {| status := "In Transit";
         trackingNumber := trackingNumber;
         deliveredAt := None |}
    else
      let hours := diff_hours now (dayjs (Order.created_at order)) in
      if lt_48 hours then
        {| status := "Order Processing";
           trackingNumber := None;
           deliveredAt := None |}
      else
        {| status := "In Transit";
           trackingNumber := None;
           deliveredAt := None |}.
End Status.

End Server.

(** ** The tracking endpoint ([src/index.js], lines 46-52 and 294-410) *)

Module Track.

(** The request: the two headers that identify the client and the
    properties [orderNumber] and [email] of its parsed JSON body. *)
Record Request := {
  cf_connecting_ip : option string;
  x_forwarded_for : option string;
  orderNumber : option string;
  email : option string
}.

Record TrackData := {
  data_orderNumber : string;
  data_status : string;
  data_trackingNumber : option string;
  data_orderDate : string;
  data_lastUpdated : string;
  data_deliveredAt : option string
}.

Inductive Body :=
| Failure (error message code : string)
| Success (data : TrackData).

Record HttpResponse := {
  http_status : Z;
  body : Body
}.

Definition createErrorResponse (error message code : string) (status : Z)
    : HttpResponse :=
  {| http_status := status; body := Failure error message code |}.

(** [searchCriteria.join(' and ')] *)
Definition searchCriteria (orderNumber email : option string) : string :=
  match JS.truthy orderNumber, JS.truthy email with
  | true, true => "order number and email"
  | true, false => "order number"
  | false, true => "email"
  | false, false => ""
  end.

(** [CF-Connecting-IP || X-Forwarded-For || 'unknown'] *)
Definition clientIP (request : Request) : string :=
  if JS.truthy (cf_connecting_ip request)
  then default "" (cf_connecting_ip request)
  else if JS.truthy (x_forwarded_for request)
  then default "" (x_forwarded_for request)
  else "unknown".

Section Handler.
Variable Date : string -> option Z.
Variable dayjs : string -> option Z.
(** [new Date(t).toISOString()] *)
Variable toISOString : Z -> string.
Variable upstream : Query -> Fetched.
(** The clock, read by [Date.now()], [dayjs()] and [new Date()]. *)
Variable now : Z.

(** The [catch] block of [handleTrack]. *)
Definition on_error (message : string) : HttpResponse :=
  if JS.includes message "Shopify API error: 401" then
    createErrorResponse "Authentication failed"
      "Shopify API authentication error" "SHOPIFY_AUTH_ERROR" 500
  else if JS.includes message "Shopify API error: 403" then
    createErrorResponse "Access denied"
      "Shopify API access denied" "SHOPIFY_ACCESS_DENIED" 500
  else if JS.includes message "Shopify API error: 5" then
    createErrorResponse "Service unavailable"
      "Shopify API is currently unavailable" "SHOPIFY_SERVICE_UNAVAILABLE" 503
  else
    createErrorResponse "Internal server error"
      "An unexpected error occurred while processing your request"
      "INTERNAL_ERROR" 500.

Definition handleTrack (request : Request) : M HttpResponse :=
  try_catch
    (let* allowed :=
       with_limiter
         (isAllowed (clientIP request) 100 (15 * 60 * 1000) now) in
     if negb allowed then
       ret (createErrorResponse
              "Too many requests from this IP, please try again later."
              "Rate limit exceeded" "RATE_LIMIT_EXCEEDED" 429)
     else
       let orderNumber := orderNumber request in
       let email := email request in
       if negb (JS.truthy orderNumber) && negb (JS.truthy email) then
         ret (createErrorResponse "Missing required fields"
                "Please provide either order number or email address"
                "MISSING_FIELDS" 400)
       else if JS.truthy orderNumber
               && negb (validateOrderNumber (default "" orderNumber)) then
         ret (createErrorResponse "Invalid order number"
                "Order number must be 1-50 characters and contain only letters, numbers, hyphens, underscores, and #"
                "INVALID_ORDER_NUMBER" 400)
       else if JS.truthy email
               && negb (validateEmail (default "" email)) then
         ret (createErrorResponse "Invalid email address"
                "Please provide a valid email address"
                "INVALID_EMAIL" 400)
       else
         let* order := getOrder Date upstream orderNumber email in
         match order with
         | None =>
             ret (createErrorResponse "Order not found"
                    (String.append "No order found with the provided "
                       (searchCriteria orderNumber email))
                    "ORDER_NOT_FOUND" 404)
         | Some order =>
             let statusInfo := Worker.determineOrderStatus dayjs now order in
             ret {| http_status := 200;
                    body := Success
                      {| data_orderNumber :=
                           JS.replace_first "#" (Order.name order);
                         data_status := Worker.status statusInfo;
                         data_trackingNumber :=
                           Worker.trackingNumber statusInfo;
                         data_orderDate := Order.created_at order;
                         data_lastUpdated := toISOString now;
                         data_deliveredAt := Worker.deliveredAt statusInfo |}
                 |}
         end)
    (fun message => ret (on_error message)).

End Handler.

End Track.

(** ** Definitions for the statements

    The definitions named [spec_...], [strip_marker] and [upstream_code]
    follow the words of the specification, to be compared with the code;
    the others name parts of the code that the statements speak about. *)

(** The admission rule as the specification words it: drop the recorded
    timestamps older than [now - windowDuration]; reject without recording
    when at least [maxRequests] remain, otherwise append [now] and admit. *)
Definition spec_admit (maxRequests windowDuration now : Z) (sequence : list Z)
    : bool * list Z :=
  let remaining :=
    List.filter (fun t => negb (t <? now - windowDuration)) sequence in
  if Z.of_nat (length remaining) >=? maxRequests
  then (false, remaining)
  else (true, remaining ++ [now]).

(** Every character of a string satisfies a class. *)
Definition all_chars (p : ascii -> bool) (s : string) : Prop :=
  forall c, In c (list_ascii_of_string s) -> p c = true.

(** The timestamps a call keeps: those later than the start of its window. *)
Definition kept (windowMs now : Z) (this : RateLimiter) (ip : string) : list Z :=
  List.filter (fun time => now - windowMs <? time) (default [] (recorded this ip)).

(** The letters of the ASCII alphabet, upper case with lower case. *)
Definition letter_pairs : list (ascii * ascii) :=
  combine (list_ascii_of_string "ABCDEFGHIJKLMNOPQRSTUVWXYZ")
    (list_ascii_of_string "abcdefghijklmnopqrstuvwxyz").

(** Two characters are equal, case apart: they are the same character, or
    the upper case and the lower case of one letter. *)
Definition same_letter (c d : ascii) : bool :=
  Ascii.eqb c d
  || existsb (fun p => (Ascii.eqb c (fst p) && Ascii.eqb d (snd p))
                       || (Ascii.eqb c (snd p) && Ascii.eqb d (fst p)))
       letter_pairs.

(** Two ASCII strings are equal, case apart: they have the same length and
    the same letters position by position. *)
Fixpoint equal_ignoring_case (s t : string) : bool :=
  match s, t with
  | EmptyString, EmptyString => true
  | String c s', String d t' => same_letter c d && equal_ignoring_case s' t'
  | _, _ => false
  end.

(** A candidate has an email equal to the supplied one, case apart. *)
Definition same_email (email : string) (o : Order.t) : Prop :=
  exists e, Order.email o = Some e /\ equal_ignoring_case e email = true.

(** Every character there is. *)
Definition all_ascii : list ascii := map ascii_of_nat (seq 0 256).

(** The two stages of [getOrder], for use in its equation
    [getOrder_unfold]: the request it issues (lines 104-117), [None] when it
    throws instead, and the candidate it returns from the orders of a
    successful response (lines 133-144). *)
Definition query_of (orderNumber email : option string) : option Query :=
  if JS.truthy orderNumber then Some (ByName (display_name (default "" orderNumber)))
  else if JS.truthy email then Some (ByEmail (default "" email))
  else None.

Definition select_order (Date : string -> option Z)
    (orderNumber email : option string) (orders : list Order.t)
    : option Order.t :=
  match orders with
  | [] => None
  | _ :: _ =>
      if JS.truthy orderNumber && JS.truthy email
      then JS.or_else (List.find (email_matches (default "" email)) orders)
             (head orders)
      else head (sort (by_created_desc Date) orders)
  end.

(** The world after one more upstream request. *)
Definition record_request (q : Query) (w : World) : World :=
  {| limiter := limiter w; issued := issued w ++ [q] |}.

(** The tracking search as the specification words it: only the first
    fulfillment; the first element of its tracking list if the list is not
    empty, else its [tracking_number] if set and not empty, else its
    [trackingNumber] if set and not empty, else the tracking number of the
    first line item that carries one, else nothing. *)
Definition spec_extractTracking (order : Order.t) : option string :=
  match Order.fulfillments order with
  | Some (f :: _) =>
      match Fulfillment.tracking_numbers f with
      | Some (t :: _) => Some t
      | _ =>
          if JS.truthy (Fulfillment.tracking_number f)
          then Fulfillment.tracking_number f
          else if JS.truthy (Fulfillment.trackingNumber f)
          then Fulfillment.trackingNumber f
          else match Fulfillment.line_items f with
               | Some items => line_item_tracking items
               | None => None
               end
      end
  | _ => None
  end.

(** The first element of the tracking list of the first fulfillment. *)
Definition first_listed (order : Order.t) : option string :=
  match Order.fulfillments order with
  | Some (f :: _) =>
      match Fulfillment.tracking_numbers f with
      | Some (t :: _) => Some t
      | _ => None
      end
  | _ => None
  end.

(** The display name without its leading marker, as the specification
    words it. *)
Definition strip_marker (name : string) : string :=
  match name with
  | String "#" rest => rest
  | _ => name
  end.

(** The error code the specification assigns to an upstream status. *)
Definition upstream_code (status : Z) : string :=
  if status =? 401 then "SHOPIFY_AUTH_ERROR"
  else if status =? 403 then "SHOPIFY_ACCESS_DENIED"
  else if (500 <=? status) && (status <=? 599) then "SHOPIFY_SERVICE_UNAVAILABLE"
  else "INTERNAL_ERROR".

(** The code of a response, [None] for a success. *)
Definition code_of (response : Track.HttpResponse) : option string :=
  match Track.body response with
  | Track.Failure _ _ code => Some code
  | Track.Success _ => None
  end.

(** The request passes the validation of [handleTrack] (lines 310-335). *)
Definition valid_request (request : Track.Request) : bool :=
  (JS.truthy (Track.orderNumber request) || JS.truthy (Track.email request))
  && implb (JS.truthy (Track.orderNumber request))
       (validateOrderNumber (default "" (Track.orderNumber request)))
  && implb (JS.truthy (Track.email request))
       (validateEmail (default "" (Track.email request))).

(** The world once the limiter has seen the request. *)
Definition counted (now : Z) (request : Track.Request) (w : World) : World :=
  {| limiter := snd (isAllowed (Track.clientIP request) 100 (15 * 60 * 1000)
                       now (limiter w));
     issued := issued w |}.

(** The answer of [handleTrack] for a located order (lines 352-374). *)
Definition success_for (dayjs : string -> option Z) (toISOString : Z -> string)
    (now : Z) (order : Order.t) : Track.HttpResponse :=
  let statusInfo := Worker.determineOrderStatus dayjs now order in
  {| Track.http_status := 200;
     Track.body := Track.Success
       {| Track.data_orderNumber := JS.replace_first "#" (Order.name order);
          Track.data_status := Worker.status statusInfo;
          Track.data_trackingNumber := Worker.trackingNumber statusInfo;
          Track.data_orderDate := Order.created_at order;
          Track.data_lastUpdated := toISOString now;
          Track.data_deliveredAt := Worker.deliveredAt statusInfo |} |}.

(** The [orderNumber] of a response, [None] for a failure. *)
Definition orderNumber_of (response : Track.HttpResponse) : option string :=
  match Track.body response with
  | Track.Success data => Some (Track.data_orderNumber data)
  | Track.Failure _ _ _ => None
  end.

(** The message of the error that [getOrder] throws for a status. *)
Definition api_error (status : Z) : string :=
  String.append "Shopify API error: " (JS.to_string status).

(** ** Sample data *)

Definition sample_Date (s : string) : option Z :=
  if String.eqb s "2024-01-10T10:00:00Z" then Some 1704880800000
  else if String.eqb s "2024-01-12T10:00:00Z" then Some 1705053600000
  else None.

Definition sample_toISOString (t : Z) : string := JS.to_string t.

Definition order_ann : Order.t :=
  {| Order.name := "#1001";
     Order.email := Some "Ann@Example.com";
     Order.created_at := "2024-01-10T10:00:00Z";
     Order.closed_at := None;
     Order.fulfillments := None |}.

Definition order_bob : Order.t :=
  {| Order.name := "#1001";
     Order.email := Some "bob@example.com";
     Order.created_at := "2024-01-12T10:00:00Z";
     Order.closed_at := None;
     Order.fulfillments := None |}.

(** A delivered order whose first fulfillment lists a tracking number. *)
Definition order_delivered : Order.t :=
  {| Order.name := "#1002";
     Order.email := Some "ann@example.com";
     Order.created_at := "2024-01-10T10:00:00Z";
     Order.closed_at := Some "2024-01-14T16:45:00Z";
     Order.fulfillments :=
       Some [ {| Fulfillment.tracking_numbers := Some ["1Z999AA1234567890"];
                 Fulfillment.tracking_number := None;
                 Fulfillment.trackingNumber := None;
                 Fulfillment.line_items := None |} ] |}.

(** An order whose tracking list starts with an empty string while a line
    item carries a tracking number. *)
Definition order_blank_listed : Order.t :=
  {| Order.name := "#1003";
     Order.email := None;
     Order.created_at := "2024-01-10T10:00:00Z";
     Order.closed_at := None;
     Order.fulfillments :=
       Some [ {| Fulfillment.tracking_numbers := Some [""];
                 Fulfillment.tracking_number := None;
                 Fulfillment.trackingNumber := None;
                 Fulfillment.line_items :=
                   Some [ {| LineItem.tracking_number := Some "LI-1" |} ] |} ] |}.

(** An order listed, singly tracked and tracked by a line item at once. *)
Definition order_all_shapes : Order.t :=
  {| Order.name := "#1004";
     Order.email := None;
     Order.created_at := "2024-01-10T10:00:00Z";
     Order.closed_at := None;
     Order.fulfillments :=
       Some [ {| Fulfillment.tracking_numbers := Some ["LIST-1"; "LIST-2"];
                 Fulfillment.tracking_number := Some "SINGLE-1";
                 Fulfillment.trackingNumber := Some "CAMEL-1";
                 Fulfillment.line_items :=
                   Some [ {| LineItem.tracking_number := Some "LI-1" |} ] |} ] |}.

(** An order whose display name carries the marker inside. *)
Definition order_inner_marker : Order.t :=
  {| Order.name := "A#1";
     Order.email := Some "ann@example.com";
     Order.created_at := "2024-01-10T10:00:00Z";
     Order.closed_at := None;
     Order.fulfillments := None |}.

Definition sample_upstream (q : Query) : Fetched :=
  match q with
  | ByName _ => Resolved {| status := 200; orders := Some [order_ann; order_bob] |}
  | ByEmail _ => Resolved {| status := 200; orders := Some [order_inner_marker] |}
  end.

(** An upstream store that answers every request with a given status. *)
Definition failing_upstream (status : Z) (q : Query) : Fetched :=
  Resolved {| status := status; orders := None |}.

(** An upstream store without any order. *)
Definition empty_upstream (q : Query) : Fetched :=
  Resolved {| status := 200; orders := None |}.

Definition request_by_number : Track.Request :=
  {| Track.cf_connecting_ip := Some "203.0.113.7";
     Track.x_forwarded_for := None;
     Track.orderNumber := Some "1001";
     Track.email := None |}.

Definition request_invalid : Track.Request :=
  {| Track.cf_connecting_ip := Some "203.0.113.7";
     Track.x_forwarded_for := None;
     Track.orderNumber := Some "10 01";
     Track.email := Some "not an email" |}.

Definition sample_world : World := {| limiter := newRateLimiter; issued := [] |}.

Definition sample_request : Track.Request :=
  {| Track.cf_connecting_ip := Some "203.0.113.7";
     Track.x_forwarded_for := None;
     Track.orderNumber := None;
     Track.email := Some "ann@example.com" |}.

(** ** The history of a run of the limiter *)

(** The times of the calls of a client that were admitted, given the calls
    of a run and their results. *)
Fixpoint admitted (ip : string) (calls : list (string * Z))
    (results : list bool) : list Z :=
  match calls, results with
  | (ip', now) :: calls', b :: results' =>
      if b && bool_decide (ip' = ip)
      then now :: admitted ip calls' results'
      else admitted ip calls' results'
  | _, _ => []
  end.

(** The timestamps of a list that fall in the window that ends at [t]. *)
Definition in_window (windowMs t : Z) (times : list Z) : list Z :=
  List.filter (fun x => t - windowMs <? x) times.

(** ** The answers of [handleTrack] before the lookup *)

(** The answer to a client over its limit (lines 299-304). *)
Definition rate_limited : Track.HttpResponse :=
  Track.createErrorResponse
    "Too many requests from this IP, please try again later."
    "Rate limit exceeded" "RATE_LIMIT_EXCEEDED" 429.

(** The answer not found (lines 339-349). *)
Definition not_found (request : Track.Request) : Track.HttpResponse :=
  Track.createErrorResponse "Order not found"
    (String.append "No order found with the provided "
       (Track.searchCriteria (Track.orderNumber request)
          (Track.email request)))
    "ORDER_NOT_FOUND" 404.

(** ** CORS headers ([src/index.js], lines 6-31)

    The headers object that [handleCORS] returns is a plain object: a
    finite map from property names to values. *)

Definition allowedOrigins : list string :=
  [ "https://zevana.co"; "https://www.zevana.co"; "http://localhost:3000";
    "http://localhost:3001"; "http://127.0.0.1:3000"; "http://127.0.0.1:3001"
  ]%string.

(** [handleCORS(request)], from the [Origin] header of the request. *)
Definition handleCORS (origin : option string) : gmap string string :=
  let corsHeaders : gmap string string :=
    <["Access-Control-Allow-Credentials"%string := "true"%string]>
      (<["Access-Control-Allow-Headers"%string :=
           "Origin, X-Requested-With, Content-Type, Accept, Authorization"%string]>
         (<["Access-Control-Allow-Methods"%string := "GET, POST, OPTIONS"%string]>
            ∅)) in
  if JS.truthy origin && bool_decide (default ""%string origin ∈ allowedOrigins)
  then <["Access-Control-Allow-Origin"%string := default ""%string origin]>
         corsHeaders
  else if negb (JS.truthy origin)
  then <["Access-Control-Allow-Origin"%string := "*"%string]> corsHeaders
  else corsHeaders.

(** ** The error answers of the Express server ([src/unnamed/part_003],
    lines 357-392)

    [axios] rejects with an error that carries [response] when the upstream
    answered outside 2xx, and with an error without it otherwise. *)

Module Express.

Definition on_error (response_status : option Z) : Track.HttpResponse :=
  match response_status with
  | Some status =>
      if status =? 401 then
        Track.createErrorResponse "Authentication failed"
          "Shopify API authentication error" "SHOPIFY_AUTH_ERROR" 500
      else if status =? 403 then
        Track.createErrorResponse "Access denied"
          "Shopify API access denied" "SHOPIFY_ACCESS_DENIED" 500
      else if status >=? 500 then
        Track.createErrorResponse "Service unavailable"
          "Shopify API is currently unavailable" "SHOPIFY_SERVICE_UNAVAILABLE"
          503
      else
        Track.createErrorResponse "Internal server error"
          "An unexpected error occurred while processing your request"
          "INTERNAL_ERROR" 500
  | None =>
      Track.createErrorResponse "Internal server error"
        "An unexpected error occurred while processing your request"
        "INTERNAL_ERROR" 500
  end.

End Express.

(** A character of the ASCII range. *)
Definition ascii_char (c : ascii) : bool := Nat.ltb (nat_of_ascii c) 128.

(** The email of a request, when it has one, is an ASCII string; there
    [validateEmail], hence [valid_request], decides as the code does. *)
Definition ascii_email (request : Track.Request) : Prop :=
  forall e, Track.email request = Some e -> all_chars ascii_char e.

(** ** A sequence of requests to the tracking endpoint *)

(** The requests, each with the time at which it is handled, are served
    one after the other against the same world. *)
Fixpoint serve (Date dayjs : string -> option Z) (toISOString : Z -> string)
    (upstream : Query -> Fetched) (requests : list (Track.Request * Z))
    (w : World) : list (Outcome Track.HttpResponse) * World :=
  match requests with
  | [] => ([], w)
  | (request, now) :: rest =>
      let '(answer, w') :=
        Track.handleTrack Date dayjs toISOString upstream now request w in
      let '(answers, w'') := serve Date dayjs toISOString upstream rest w' in
      (answer :: answers, w'')
  end.

(** The answer is anything but 429. *)
Definition not_limited (answer : Outcome Track.HttpResponse) : bool :=
  match answer with
  | Returned response => negb (Track.http_status response =? 429)
  | Thrown _ => true
  end.

(** The clients and times of a sequence of requests. *)
Definition calls_of (requests : list (Track.Request * Z)) : list (string * Z) :=
  map (fun p => (Track.clientIP (fst p), snd p)) requests.

(** * Properties *)

(** ** Regular expression matching decides the language *)

Lemma append_nil_l (s : string) : String.append EmptyString s = s.
Proof. reflexivity. Qed.

Lemma append_cons (c : ascii) (s t : string) :
  String.append (String c s) t = String c (String.append s t).
Proof. reflexivity. Qed.

Lemma append_empty_inv (s1 s2 : string) :
  String.append s1 s2 = EmptyString -> s1 = EmptyString /\ s2 = EmptyString.
Proof. destruct s1; simpl; [tauto | discriminate]. Qed.

Lemma nullable_Matches (r : regex) :
  nullable r = true <-> Matches r EmptyString.
Proof.
  split.
  - induction r; simpl; intros H; try discriminate.
    + constructor.
    + apply andb_true_iff in H as [H1 H2].
      change EmptyString with (String.append EmptyString EmptyString).
      constructor; auto.
    + apply orb_true_iff in H as [H | H]; [apply MAltL | apply MAltR]; auto.
    + constructor.
  - intros H. remember EmptyString as s eqn:Es.
    induction H; simpl; subst; try discriminate; auto.
    + apply append_empty_inv in Es as [-> ->].
      rewrite IHMatches1, IHMatches2; auto.
    + rewrite IHMatches; auto.
    + rewrite IHMatches, orb_true_r; auto.
Qed.

Lemma deriv_sound (c : ascii) (r : regex) :
  forall s, Matches (deriv c r) s -> Matches r (String c s).
Proof.
  induction r; simpl; intros s H.
  - inversion H.
  - inversion H.
  - destruct (p c) eqn:Ep; inversion H; subst. constructor; auto.
  - assert (Hseq : forall t, Matches (Seq (deriv c r1) r2) t ->
                             Matches (Seq r1 r2) (String c t)).
    { intros t Ht. inversion Ht; subst.
      change (String c (String.append s1 s2))
        with (String.append (String c s1) s2).
      constructor; auto. }
    destruct (nullable r1) eqn:En; [| auto].
    inversion H; subst; [auto |].
    change (String c s) with (String.append EmptyString (String c s)).
    constructor; [apply nullable_Matches; auto | auto].
  - inversion H; subst; [apply MAltL | apply MAltR]; auto.
  - inversion H; subst.
    change (String c (String.append s1 s2))
      with (String.append (String c s1) s2).
    constructor; auto.
Qed.

Lemma deriv_complete (c : ascii) (r : regex) (t : string) :
  Matches r t -> forall u, t = String c u -> Matches (deriv c r) u.
Proof.
  induction 1 as [| p d Hp | r1 r2 s1 s2 H1 IH1 H2 IH2 | r1 r2 s H IH
                 | r1 r2 s H IH | r | r s1 s2 H1 IH1 H2 IH2];
    intros u E; simpl.
  - discriminate.
  - injection E as -> <-. rewrite Hp. constructor.
  - destruct s1 as [| d s1'];
      [rewrite append_nil_l in E | rewrite append_cons in E].
    + subst s2. apply nullable_Matches in H1. rewrite H1.
      apply MAltR. auto.
    + injection E as -> <-.
      assert (Matches (Seq (deriv c r1) r2) (String.append s1' s2))
        by (constructor; auto).
      destruct (nullable r1); [apply MAltL |]; auto.
  - apply MAltL; auto.
  - apply MAltR; auto.
  - discriminate.
  - destruct s1 as [| d s1'];
      [rewrite append_nil_l in E | rewrite append_cons in E].
    + subst s2. apply (IH2 u eq_refl).
    + injection E as -> <-. constructor; auto.
Qed.

Lemma test_Matches (r : regex) (s : string) :
  test r s = true <-> Matches r s.
Proof.
  revert r. induction s as [| c s IH]; intros r; simpl.
  - apply nullable_Matches.
  - rewrite IH. split.
    + apply deriv_sound.
    + intros H. eapply deriv_complete; eauto.
Qed.

Lemma Matches_star_class (p : ascii -> bool) (s : string) :
  Matches (Star (Class p)) s <-> all_chars p s.
Proof.
  split.
  - intros H. remember (Star (Class p)) as r eqn:Er.
    induction H; try discriminate.
    + intros c [].
    + injection Er as ->. inversion H; subst.
      intros d [<- | Hd]; [auto | apply IHMatches2; auto].
  - induction s as [| c s IH]; intros H.
    + constructor.
    + change (String c s) with (String.append (String c EmptyString) s).
      constructor.
      * constructor. apply H. left; auto.
      * apply IH. intros d Hd. apply H. right; auto.
Qed.

Lemma Matches_plus_class (p : ascii -> bool) (s : string) :
  Matches (Plus (Class p)) s <-> s <> EmptyString /\ all_chars p s.
Proof.
  unfold Plus. split.
  - intros H. inversion H as [| | r1 r2 s1 s2 H1 H2 | | | |]; subst.
    inversion H1; subst. simpl. split; [discriminate |].
    apply Matches_star_class in H2.
    intros d [<- | Hd]; auto.
  - intros [Hne H]. destruct s as [| c s]; [congruence |].
    change (String c s) with (String.append (String c EmptyString) s).
    constructor.
    + constructor. apply H. left; auto.
    + apply Matches_star_class. intros d Hd. apply H. right; auto.
Qed.

(** ** Order number validation *)

(** C7: [validateOrderNumber] accepts a string exactly when its length is
    between 1 and 50 and each of its characters is a letter, a digit, [-],
    [_] or [#]; an empty string, a string longer than 50 and a string with
    any other character are rejected. *)
Theorem validateOrderNumber_iff (s : string) :
  (validateOrderNumber s = true <->
     (1 <= String.length s <= 50)%nat /\ all_chars order_char s)
  /\ (String.length s = 0%nat -> validateOrderNumber s = false)
  /\ ((50 < String.length s)%nat -> validateOrderNumber s = false)
  /\ (forall c, In c (list_ascii_of_string s) -> order_char c = false ->
        validateOrderNumber s = false).
Proof.
  assert (Hiff : validateOrderNumber s = true <->
     (1 <= String.length s <= 50)%nat /\ all_chars order_char s).
  { unfold validateOrderNumber, orderRegex.
    rewrite !andb_true_iff, test_Matches, Matches_plus_class.
    rewrite !Nat.leb_le. split.
    - intros [[[_ Hall] H1] H50]. auto.
    - intros [[H1 H50] Hall]. repeat split; auto.
      destruct s; simpl in H1; [lia | discriminate]. }
  split; [exact Hiff |].
  repeat split.
  - intros H0. apply not_true_is_false. rewrite Hiff. lia.
  - intros H50. apply not_true_is_false. rewrite Hiff. lia.
  - intros c Hin Hc. apply not_true_is_false. rewrite Hiff.
    intros [_ Hall]. specialize (Hall c Hin). congruence.
Qed.

(** ** The rate limiter *)

Lemma deref_app_l (h : list (list Z)) (a : list Z) (r : nat) :
  (r < length h)%nat -> deref (h ++ [a]) r = deref h r.
Proof. intros Hr. unfold deref. rewrite lookup_app_l; auto. Qed.

Lemma deref_app_new (h : list (list Z)) (a : list Z) :
  deref (h ++ [a]) (length h) = a.
Proof. unfold deref. rewrite list_lookup_middle; auto. Qed.

Lemma deref_insert_eq (h : list (list Z)) (a : list Z) (r : nat) :
  (r < length h)%nat -> deref (<[r := a]> h) r = a.
Proof. intros Hr. unfold deref. rewrite list_lookup_insert_eq; auto. Qed.

Lemma deref_insert_ne (h : list (list Z)) (a : list Z) (r v : nat) :
  v ≠ r -> deref (<[v := a]> h) r = deref h r.
Proof. intros Hr. unfold deref. rewrite list_lookup_insert_ne; auto. Qed.

Lemma isAllowed_recorded (ip : string) (maxRequests windowMs now : Z)
    (this : RateLimiter) :
  wf this ->
  let valid := kept windowMs now this ip in
  let result := isAllowed ip maxRequests windowMs now this in
  wf (snd result)
  /\ (forall ip', ip' ≠ ip -> recorded (snd result) ip' = recorded this ip')
  /\ (if Z.of_nat (length valid) >=? maxRequests
      then fst result = false /\ recorded (snd result) ip = Some valid
      else fst result = true /\ recorded (snd result) ip = Some (valid ++ [now])).
Proof.
  intros Hwf valid result. subst valid result.
  unfold kept, recorded, isAllowed, alloc.
  destruct (requests this !! ip) as [r |] eqn:Hip; simpl.
  - rewrite Hip. simpl. rewrite deref_app_new.
    pose proof (Hwf _ _ Hip) as Hr.
    set (V := List.filter _ (deref (arrays this) r)).
    destruct (Z.of_nat (length V) >=? maxRequests); simpl.
    + split; [| split; [| split; auto]].
      * intros ip' r'. simpl. rewrite length_app. simpl.
        destruct (decide (ip = ip')) as [-> | Hne].
        -- rewrite lookup_insert_eq. intros [= <-]. lia.
        -- rewrite lookup_insert_ne by auto. intros H. apply Hwf in H. lia.
      * intros ip' Hne. rewrite lookup_insert_ne by auto.
        destruct (requests this !! ip') as [r' |] eqn:Hip'; simpl; auto.
        rewrite deref_app_l; eauto.
      * rewrite lookup_insert_eq. simpl. rewrite deref_app_new. auto.
    + split; [| split; [| split; auto]].
      * intros ip' r'. simpl. rewrite length_insert, length_app. simpl.
        destruct (decide (ip = ip')) as [-> | Hne].
        -- rewrite lookup_insert_eq. intros [= <-]. lia.
        -- rewrite lookup_insert_ne by auto. intros H. apply Hwf in H. lia.
      * intros ip' Hne. rewrite lookup_insert_ne by auto.
        destruct (requests this !! ip') as [r' |] eqn:Hip'; simpl; auto.
        pose proof (Hwf _ _ Hip') as Hr'.
        rewrite deref_insert_ne by lia. rewrite deref_app_l; auto.
      * rewrite lookup_insert_eq. simpl. rewrite deref_insert_eq; auto.
        rewrite length_app. simpl. lia.
  - rewrite lookup_insert_eq. simpl. rewrite !deref_app_new. simpl.
    rewrite insert_insert_eq.
    destruct (Z.of_nat 0 >=? maxRequests); simpl.
    + split; [| split; [| split; auto]].
      * intros ip' r'. simpl. rewrite !length_app. simpl.
        destruct (decide (ip = ip')) as [-> | Hne].
        -- rewrite lookup_insert_eq. intros [= <-]. lia.
        -- rewrite lookup_insert_ne by auto. intros H. apply Hwf in H. lia.
      * intros ip' Hne. rewrite lookup_insert_ne by auto.
        destruct (requests this !! ip') as [r' |] eqn:Hip'; simpl; auto.
        pose proof (Hwf _ _ Hip') as Hr'.
        rewrite !deref_app_l; auto. rewrite length_app. lia.
      * rewrite lookup_insert_eq. simpl. rewrite deref_app_new. auto.
    + split; [| split; [| split; auto]].
      * intros ip' r'. simpl. rewrite length_insert, !length_app. simpl.
        destruct (decide (ip = ip')) as [-> | Hne].
        -- rewrite lookup_insert_eq. intros [= <-]. lia.
        -- rewrite lookup_insert_ne by auto. intros H. apply Hwf in H. lia.
      * intros ip' Hne. rewrite lookup_insert_ne by auto.
        destruct (requests this !! ip') as [r' |] eqn:Hip'; simpl; auto.
        pose proof (Hwf _ _ Hip') as Hr'.
        rewrite deref_insert_ne by (rewrite length_app; simpl; lia).
        rewrite !deref_app_l; auto. rewrite length_app. lia.
      * rewrite lookup_insert_eq. simpl. rewrite deref_insert_eq; auto.
        rewrite !length_app. simpl. lia.
Qed.

Lemma run_snoc (maxRequests windowMs : Z) (calls : list (string * Z))
    (ip : string) (now : Z) (this : RateLimiter) :
  snd (run maxRequests windowMs (calls ++ [(ip, now)]) this)
  = snd (isAllowed ip maxRequests windowMs now
           (snd (run maxRequests windowMs calls this))).
Proof.
  revert this. induction calls as [| [ip' t] calls IH]; intros this; simpl.
  - destruct (isAllowed ip maxRequests windowMs now this); auto.
  - destruct (isAllowed ip' maxRequests windowMs t this) as [b this'].
    specialize (IH this').
    destruct (run maxRequests windowMs (calls ++ [(ip, now)]) this').
    destruct (run maxRequests windowMs calls this'). auto.
Qed.

Lemma last_call_snoc (ip ip' : string) (now : Z) (calls : list (string * Z)) :
  last_call ip (calls ++ [(ip', now)])
  = if decide (ip' = ip) then Some now else last_call ip calls.
Proof.
  induction calls as [| [ip'' t] calls IH]; simpl.
  - auto.
  - rewrite IH. destruct (decide (ip' = ip)); auto.
Qed.

Lemma last_call_In (ip : string) (t : Z) (calls : list (string * Z)) :
  last_call ip calls = Some t -> In t (map snd calls).
Proof.
  induction calls as [| [ip' u] calls IH]; simpl; [discriminate |].
  destruct (last_call ip calls) as [v |].
  - intros [= <-]. right. auto.
  - destruct (decide (ip' = ip)); [| discriminate].
    intros [= <-]. left. auto.
Qed.

Lemma nondecreasing_snoc (ts : list Z) (t : Z) :
  nondecreasing (ts ++ [t]) -> nondecreasing ts /\ (forall u, In u ts -> u <= t).
Proof.
  induction ts as [| a ts IH]; simpl.
  - intros _. split; [auto | intros u []].
  - intros [Hall Hnd]. destruct (IH Hnd) as [Hts Hle].
    apply Forall_app in Hall as [Hall Ht]. split; [auto |].
    intros u [<- | Hu]; [| auto].
    inversion Ht; auto.
Qed.

Lemma nondecreasing_app_l (ts us : list Z) :
  nondecreasing (ts ++ us) -> nondecreasing ts.
Proof.
  induction ts as [| a ts IH]; simpl; [auto |].
  intros [Hall Hnd]. apply Forall_app in Hall as [Hall _]. auto.
Qed.

(** The invariant after a run of calls: what is recorded for a client is
    within the limit and inside the window of the client's last call. *)
Lemma run_invariant (maxRequests windowMs : Z) (calls : list (string * Z)) :
  0 <= maxRequests -> 0 < windowMs ->
  nondecreasing (map snd calls) ->
  let this := snd (run maxRequests windowMs calls newRateLimiter) in
  wf this
  /\ forall ip l, recorded this ip = Some l ->
       Z.of_nat (length l) <= maxRequests
       /\ exists t, last_call ip calls = Some t
                    /\ Forall (fun x => t - windowMs < x /\ x <= t) l.
Proof.
  intros Hmax Hwin.
  induction calls as [| [ip now] calls IH] using rev_ind; intros Hnd.
  - simpl. split.
    + intros ip r. simpl. rewrite lookup_empty. discriminate.
    + intros ip l. unfold recorded. simpl. rewrite lookup_empty. discriminate.
  - rewrite map_app in Hnd. simpl in Hnd.
    apply nondecreasing_snoc in Hnd as [Hnd Hle].
    specialize (IH Hnd). simpl in IH. destruct IH as [Hwf IH].
    cbv zeta. rewrite run_snoc.
    set (this := snd (run maxRequests windowMs calls newRateLimiter)) in *.
    destruct (isAllowed_recorded ip maxRequests windowMs now this Hwf)
      as (Hwf' & Hother & Hself).
    split; [exact Hwf' |].
    intros ip' l Hl. rewrite last_call_snoc.
    destruct (decide (ip = ip')) as [<- | Hne].
    + assert (Hkept : Forall (fun x => now - windowMs < x /\ x <= now)
                        (kept windowMs now this ip)
                      /\ Z.of_nat (length (kept windowMs now this ip)) <= maxRequests).
      { unfold kept. destruct (recorded this ip) as [old |] eqn:Hold; simpl.
        - destruct (IH _ _ Hold) as (Hlen & t & Ht & Hall). split.
          + apply Forall_forall. intros x Hx.
            apply list_elem_of_In, filter_In in Hx as [Hx Hlt].
            apply Z.ltb_lt in Hlt. split; [auto |].
            rewrite Forall_forall in Hall.
            apply list_elem_of_In, Hall in Hx.
            apply last_call_In, Hle in Ht. lia.
          + pose proof (filter_length_le (fun time => now - windowMs <? time) old).
            lia.
        - split; [constructor | simpl; lia]. }
      destruct Hkept as [Hall Hlen].
      destruct (Z.of_nat (length (kept windowMs now this ip)) >=? maxRequests)
        eqn:Hcmp.
      * destruct Hself as [_ Hrec]. rewrite Hrec in Hl. injection Hl as <-.
        split.
        -- auto.
        -- exists now. split; auto.
      * destruct Hself as [_ Hrec]. rewrite Hrec in Hl. injection Hl as <-.
        rewrite Z.geb_leb in Hcmp. apply Z.leb_gt in Hcmp.
        split.
        -- rewrite length_app. simpl. lia.
        -- exists now. split; auto.
           apply Forall_app. split; auto.
           constructor; [lia | constructor].
    + rewrite Hother in Hl by auto. apply IH; auto.
Qed.

(** C2: a call first drops from the client's recorded sequence exactly the
    timestamps that are not later than [now - windowMs] (a timestamp equal
    to [now - windowMs] is dropped too), keeping the others in order; when
    at least [maxRequests] remain it returns false and records nothing,
    otherwise it appends [now] and returns true; other clients are left
    untouched and the limiter stays well formed.  With a limit of 2 and a window of 1000 ms, calls at 0, 100,
    200 and 1100 for one client return true, true, false, true. *)
Theorem isAllowed_sliding_window :
  (forall (ip : string) (maxRequests windowMs now : Z) (this : RateLimiter),
     wf this ->
     let old := default [] (recorded this ip) in
     let valid := List.filter (fun t => negb (t <=? now - windowMs)) old in
     let result := isAllowed ip maxRequests windowMs now this in
     (forall t, In t old -> (In t valid <-> ~ t <= now - windowMs))
     /\ (maxRequests <= Z.of_nat (length valid) ->
           fst result = false /\ recorded (snd result) ip = Some valid)
     /\ (Z.of_nat (length valid) < maxRequests ->
           fst result = true /\ recorded (snd result) ip = Some (valid ++ [now]))
     /\ (forall ip', ip' ≠ ip -> recorded (snd result) ip' = recorded this ip')
     /\ wf (snd result))
  /\ fst (run 2 1000 [("client", 0); ("client", 100); ("client", 200);
                      ("client", 1100)]%string newRateLimiter)
     = [true; true; false; true].
Proof.
  split; [| vm_compute; reflexivity].
  intros ip maxRequests windowMs now this Hwf old valid result.
  assert (Hvalid : valid = kept windowMs now this ip).
  { unfold valid, old, kept. apply filter_ext. intros t.
    destruct (Z.leb_spec t (now - windowMs)), (Z.ltb_spec (now - windowMs) t);
      simpl; auto; lia. }
  destruct (isAllowed_recorded ip maxRequests windowMs now this Hwf)
    as (Hwf' & Hother & Hself).
  fold result in Hwf', Hother, Hself. rewrite <- Hvalid in Hself.
  split; [| split; [| split; [| split]]].
  - intros t Ht. unfold valid. rewrite filter_In, negb_true_iff, Z.leb_gt.
    split; [intros [_ H]; lia | intros H; split; [auto | lia]].
  - intros Hle. apply Z.geb_le in Hle. rewrite Hle in Hself. auto.
  - intros Hlt. destruct (Z.of_nat (length valid) >=? maxRequests) eqn:Hcmp.
    + apply Z.geb_le in Hcmp. lia.
    + auto.
  - auto.
  - auto.
Qed.

Lemma isAllowed_sliding_window_witness :
  wf newRateLimiter
  /\ fst (isAllowed "client" 2 1000 0 newRateLimiter) = true
  /\ recorded (snd (isAllowed "client" 2 1000 0 newRateLimiter)) "client"
     = Some [0].
Proof.
  assert (Hwf : wf newRateLimiter).
  { intros ip r. simpl. rewrite lookup_empty. discriminate. }
  split; [exact Hwf |].
  destruct isAllowed_sliding_window as [H _].
  destruct (H "client"%string 2 1000 0 newRateLimiter Hwf)
    as (_ & _ & Hadmit & _).
  apply Hadmit. vm_compute. reflexivity.
Defined.

(** C2, as stated, fails at the boundary of the window: with a limit of 1
    and a window of 1000 ms, a timestamp recorded at 0 is not older than
    [1000 - 1000], so the stated rule keeps it and rejects a call at 1000;
    the code drops it and admits the call. *)
Lemma isAllowed_boundary_counterexample :
  let this := snd (isAllowed "client" 1 1000 0 newRateLimiter) in
  recorded this "client" = Some [0]
  /\ spec_admit 1 1000 1000 [0] = (false, [0])
  /\ fst (isAllowed "client" 1 1000 1000 this) = true
  /\ recorded (snd (isAllowed "client" 1 1000 1000 this)) "client" = Some [1000].
Proof. vm_compute. repeat split; reflexivity. Qed.

(** C10: after every call of a run of calls with non-decreasing times (a
    positive window and a non-negative limit), what is recorded for any
    client has at most [maxRequests] timestamps, and each of them is later
    than [t - windowMs] and not later than [t], where [t] is the time of the
    most recent call for that client. *)
Theorem limiter_invariant (maxRequests windowMs : Z)
    (calls rest : list (string * Z)) :
  0 <= maxRequests -> 0 < windowMs ->
  nondecreasing (map snd (calls ++ rest)) ->
  forall ip l,
    recorded (snd (run maxRequests windowMs calls newRateLimiter)) ip = Some l ->
    Z.of_nat (length l) <= maxRequests
    /\ exists t, last_call ip calls = Some t
                 /\ Forall (fun x => t - windowMs < x /\ x <= t) l.
Proof.
  intros Hmax Hwin Hnd. rewrite map_app in Hnd.
  apply nondecreasing_app_l in Hnd.
  apply (run_invariant maxRequests windowMs calls Hmax Hwin Hnd).
Qed.

Lemma limiter_invariant_witness :
  Z.of_nat (length [200; 1100]) <= 2
  /\ exists t, last_call "a" [("a", 0); ("b", 50); ("a", 200); ("a", 1100)]%string = Some t
               /\ Forall (fun x => t - 1000 < x /\ x <= t) [200; 1100].
Proof.
  apply (limiter_invariant 2 1000
           [("a", 0); ("b", 50); ("a", 200); ("a", 1100)]%string
           [("b", 1200)]%string).
  - lia.
  - lia.
  - simpl. repeat split; repeat constructor; lia.
  - vm_compute. reflexivity.
Defined.

(** ** Order lookup *)

Lemma getOrder_unfold (Date : string -> option Z) (upstream : Query -> Fetched)
    (orderNumber email : option string) (w : World) :
  getOrder Date upstream orderNumber email w
  = match query_of orderNumber email with
    | None => (Thrown "Either orderNumber or email must be provided", w)
    | Some q =>
        match upstream q with
        | Rejected e => (Thrown e, record_request q w)
        | Resolved r =>
            if ok r
            then (Returned
                    (select_order Date orderNumber email (default [] (orders r))),
                  record_request q w)
            else (Thrown (String.append "Shopify API error: "
                            (JS.to_string (status r))),
                  record_request q w)
        end
    end.
Proof.
  unfold getOrder, query_of, select_order, try_catch, bind, fetch, ret, throw,
    record_request.
  destruct (JS.truthy orderNumber), (JS.truthy email); cbn [andb]; auto;
    match goal with
    | |- context [upstream ?q] =>
        destruct (upstream q) as [r | e]; auto;
        destruct (ok r); cbn [negb]; auto;
        destruct (default [] (orders r)); auto
    end.
Qed.

Lemma find_first {A} (f : A -> bool) (l : list A) (x : A) :
  List.find f l = Some x ->
  exists pre post, l = pre ++ x :: post /\ f x = true
                   /\ forall y, In y pre -> f y = false.
Proof.
  induction l as [| a l IH]; simpl; [discriminate |].
  destruct (f a) eqn:Efa.
  - intros [= <-]. exists [], l. repeat split; auto. intros y [].
  - intros H. destruct (IH H) as (pre & post & -> & Hx & Hpre).
    exists (a :: pre), post. repeat split; auto.
    intros y [<- | Hy]; auto.
Qed.

Lemma truthy_Some (s : string) :
  JS.truthy (Some s) = true <-> s <> EmptyString.
Proof.
  simpl. rewrite negb_true_iff. split.
  - intros H ->. discriminate.
  - intros H. apply String.eqb_neq. auto.
Qed.

Lemma In_all_ascii (c : ascii) : In c all_ascii.
Proof.
  unfold all_ascii. rewrite <- (ascii_nat_embedding c).
  apply in_map, in_seq. pose proof (nat_ascii_bounded c). lia.
Qed.

(** Lowering two characters gives the same character exactly when they
    are equal, case apart. *)
Lemma lower_char_same_letter (c d : ascii) :
  Ascii.eqb (JS.lower_char c) (JS.lower_char d) = same_letter c d.
Proof.
  assert (Hall : forallb
            (fun a => forallb
               (fun b => Bool.eqb
                  (Ascii.eqb (JS.lower_char a) (JS.lower_char b))
                  (same_letter a b))
               all_ascii)
            all_ascii = true) by (vm_compute; reflexivity).
  rewrite forallb_forall in Hall. specialize (Hall c (In_all_ascii c)).
  rewrite forallb_forall in Hall. specialize (Hall d (In_all_ascii d)).
  apply Bool.eqb_prop in Hall. exact Hall.
Qed.

Lemma toLowerCase_equal_ignoring_case (s t : string) :
  JS.toLowerCase s = JS.toLowerCase t <-> equal_ignoring_case s t = true.
Proof.
  revert t. induction s as [| c s IH]; intros [| d t]; simpl;
    try (split; [discriminate | discriminate]); [tauto |].
  rewrite andb_true_iff, <- IH, <- lower_char_same_letter, Ascii.eqb_eq.
  split.
  - intros [= Hc Hs]. auto.
  - intros [-> ->]. reflexivity.
Qed.

Lemma email_matches_iff (email : string) (o : Order.t) :
  email <> EmptyString ->
  email_matches email o = true <-> same_email email o.
Proof.
  intros Hne. unfold email_matches, same_email.
  destruct (Order.email o) as [e |]; simpl.
  - rewrite andb_true_iff, negb_true_iff, String.eqb_eq.
    rewrite toLowerCase_equal_ignoring_case. split.
    + intros [_ H]. eauto.
    + intros (e' & [= <-] & H). split; [| auto].
      apply String.eqb_neq. intros ->.
      destruct email; [congruence | discriminate].
  - split; [discriminate | intros (e & H & _); discriminate].
Qed.

(** C3: with both criteria supplied and a successful upstream response
    holding at least one candidate, the emails being ASCII strings, the
    lookup returns a candidate; when some candidate has an email equal to
    the supplied one (case apart), it is the first such candidate in
    upstream order; when none has, it is the first candidate of the
    response. *)
Theorem getOrder_both_criteria (Date : string -> option Z)
    (upstream : Query -> Fetched) (orderNumber email : string) (w : World)
    (response : Response) (first : Order.t) (rest : list Order.t) :
  orderNumber <> EmptyString -> email <> EmptyString ->
  all_chars ascii_char email ->
  (forall o e, In o (first :: rest) -> Order.email o = Some e ->
     all_chars ascii_char e) ->
  upstream (ByName (display_name orderNumber)) = Resolved response ->
  ok response = true ->
  orders response = Some (first :: rest) ->
  exists chosen,
    fst (getOrder Date upstream (Some orderNumber) (Some email) w)
    = Returned (Some chosen)
    /\ ((exists o, In o (first :: rest) /\ same_email email o) ->
        exists pre post,
          first :: rest = pre ++ chosen :: post
          /\ same_email email chosen
          /\ forall o, In o pre -> ~ same_email email o)
    /\ ((forall o, In o (first :: rest) -> ~ same_email email o) ->
        chosen = first).
Proof.
  intros Hon Hem _ _ Hup Hok Horders.
  apply truthy_Some in Hon as Ton. apply truthy_Some in Hem as Tem.
  rewrite getOrder_unfold. unfold query_of, select_order.
  rewrite Ton, Tem. cbn [default from_option id andb].
  rewrite Hup, Hok, Horders. cbn [default from_option id fst].
  destruct (List.find (email_matches email) (first :: rest)) as [o |] eqn:Hfind.
  - exists o. cbn [JS.or_else]. split; [auto |].
    destruct (find_first _ _ _ Hfind) as (pre & post & Hsplit & Ho & Hpre).
    split.
    + intros _. exists pre, post. split; [auto |].
      split; [apply email_matches_iff; auto |].
      intros y Hy Hsame. apply email_matches_iff in Hsame; auto.
      rewrite (Hpre y Hy) in Hsame. discriminate.
    + intros Hnone. exfalso. apply (Hnone o).
      * rewrite Hsplit. apply in_or_app. right. left. auto.
      * apply email_matches_iff; auto.
  - exists first. cbn [JS.or_else head]. split; [auto |].
    split; [| auto].
    intros (o & Hin & Hsame). exfalso.
    apply email_matches_iff in Hsame; auto.
    pose proof (find_none _ _ Hfind o Hin) as Hfalse. congruence.
Qed.

Lemma insert_sorted_not_nil {A} (cmp : A -> A -> Z) (x : A) (l : list A) :
  insert_sorted cmp x l <> [].
Proof. destruct l as [| y l]; simpl; [| destruct (cmp x y <=? 0)]; discriminate. Qed.

Lemma sort_nil_inv {A} (cmp : A -> A -> Z) (l : list A) :
  sort cmp l = [] -> l = [].
Proof.
  destruct l as [| a l]; [auto |]. unfold sort. simpl. intros H.
  apply insert_sorted_not_nil in H. destruct H.
Qed.

(** The head of the sorted candidates is the first of the most recent. *)
Lemma head_sort_created (Date : string -> option Z) (l : list Order.t) :
  (forall o, In o l -> exists t, Date (Order.created_at o) = Some t) ->
  l <> [] ->
  exists x pre post t,
    head (sort (by_created_desc Date) l) = Some x
    /\ l = pre ++ x :: post
    /\ Date (Order.created_at x) = Some t
    /\ (forall o u, In o l -> Date (Order.created_at o) = Some u -> u <= t)
    /\ (forall o u, In o pre -> Date (Order.created_at o) = Some u -> u < t).
Proof.
  induction l as [| a l IH]; intros Hvalid Hne; [congruence |].
  destruct (Hvalid a (or_introl eq_refl)) as [ta Ha].
  unfold sort. simpl. fold (sort (by_created_desc Date) l).
  destruct (sort (by_created_desc Date) l) as [| y s] eqn:Hs.
  - apply sort_nil_inv in Hs. subst l.
    exists a, [], [], ta. simpl. repeat split; auto.
    + intros o u [<- | []] Hu. rewrite Ha in Hu. injection Hu as <-. lia.
    + intros o u [].
  - assert (Hl : l <> []) by (intros ->; discriminate).
    destruct IH as (x & pre & post & t & Hhead & Hsplit & Hx & Hmax & Hpre);
      [intros o Ho; apply Hvalid; right; auto | auto |].
    simpl in Hhead. injection Hhead as ->.
    simpl. unfold by_created_desc at 1. rewrite Hx, Ha.
    destruct (Z.leb_spec (t - ta) 0) as [Hle | Hgt].
    + exists a, [], l, ta. simpl. repeat split; auto.
      * intros o u [<- | Ho] Hu.
        -- rewrite Ha in Hu. injection Hu as <-. lia.
        -- specialize (Hmax o u Ho Hu). lia.
      * intros o u [].
    + exists x, (a :: pre), post, t. simpl. repeat split; auto.
      * rewrite Hsplit. auto.
      * intros o u [<- | Ho] Hu.
        -- rewrite Ha in Hu. injection Hu as <-. lia.
        -- eauto.
      * intros o u [<- | Ho] Hu.
        -- rewrite Ha in Hu. injection Hu as <-. lia.
        -- eauto.
Qed.

(** C4: with exactly one criterion supplied, a successful upstream response
    holding at least one candidate and every creation date valid, the
    lookup returns a candidate whose creation time is the maximum; the
    candidates before it in upstream order are all strictly older, so
    among the most recent ones it is the earliest in upstream order. *)
Theorem getOrder_single_criterion (Date : string -> option Z)
    (upstream : Query -> Fetched) (orderNumber email : option string)
    (w : World) (response : Response) (first : Order.t) (rest : list Order.t) :
  xorb (JS.truthy orderNumber) (JS.truthy email) = true ->
  upstream (if JS.truthy orderNumber
            then ByName (display_name (default "" orderNumber))
            else ByEmail (default "" email)) = Resolved response ->
  ok response = true ->
  orders response = Some (first :: rest) ->
  (forall o, In o (first :: rest) ->
     exists t, Date (Order.created_at o) = Some t) ->
  exists chosen pre post t,
    fst (getOrder Date upstream orderNumber email w) = Returned (Some chosen)
    /\ first :: rest = pre ++ chosen :: post
    /\ Date (Order.created_at chosen) = Some t
    /\ (forall o u, In o (first :: rest) ->
          Date (Order.created_at o) = Some u -> u <= t)
    /\ (forall o u, In o pre -> Date (Order.created_at o) = Some u -> u < t).
Proof.
  intros Hone Hup Hok Horders Hvalid.
  destruct (head_sort_created Date (first :: rest) Hvalid)
    as (x & pre & post & t & Hhead & Hrest); [discriminate |].
  exists x, pre, post, t. split; [| exact Hrest].
  rewrite getOrder_unfold. unfold query_of, select_order.
  destruct (JS.truthy orderNumber), (JS.truthy email); try discriminate;
    rewrite Hup, Hok, Horders; cbn [default from_option id fst andb];
    rewrite Hhead; auto.
Qed.

Lemma validateOrderNumber_iff_witness :
  validateOrderNumber "#1001" = true /\ validateOrderNumber "10 01" = false.
Proof.
  split.
  - apply (validateOrderNumber_iff "#1001"). split.
    + simpl. lia.
    + intros c Hc. simpl in Hc.
      repeat (destruct Hc as [<- | Hc]; [reflexivity |]). destruct Hc.
  - destruct (validateOrderNumber_iff "10 01") as (_ & _ & _ & H).
    apply (H " "%char); [simpl; auto | reflexivity].
Defined.

Lemma getOrder_both_criteria_witness :
  fst (getOrder sample_Date sample_upstream (Some "1001"%string)
         (Some "BOB@Example.COM"%string) sample_world)
  = Returned (Some order_bob)
  /\ fst (getOrder sample_Date sample_upstream (Some "1001"%string)
            (Some "carol@example.com"%string) sample_world)
     = Returned (Some order_ann).
Proof.
  assert (Hascii : forall email o e,
            In o [order_ann; order_bob] -> Order.email o = Some e ->
            In email ["BOB@Example.COM"; "carol@example.com"; e]%string ->
            all_chars ascii_char email).
  { intros email o e [<- | [<- | []]] [= <-] [<- | [<- | [<- | []]]] c Hc;
      simpl in Hc;
      repeat (destruct Hc as [<- | Hc]; [reflexivity |]); destruct Hc. }
  split.
  - destruct (getOrder_both_criteria sample_Date sample_upstream
                "1001" "BOB@Example.COM" sample_world
                {| status := 200; orders := Some [order_ann; order_bob] |}
                order_ann [order_bob])
      as (chosen & Hrun & Hmatch & _);
      [discriminate | discriminate
      | apply (Hascii _ order_ann _ (or_introl eq_refl) eq_refl); simpl; auto
      | intros o e Ho He; apply (Hascii e o e Ho He); simpl; auto
      | reflexivity | reflexivity | reflexivity |].
    destruct Hmatch as (pre & post & Hsplit & (e & He & Hsame) & Hpre).
    + exists order_bob. split; [simpl; auto |].
      exists "bob@example.com"%string. split; reflexivity.
    + rewrite Hrun. destruct pre as [| p [| p' pre]]; simpl in Hsplit.
      * injection Hsplit as <- _. injection He as <-. discriminate.
      * injection Hsplit as _ <- _. reflexivity.
      * injection Hsplit as _ _ Hrest. destruct pre; discriminate.
  - destruct (getOrder_both_criteria sample_Date sample_upstream
                "1001" "carol@example.com" sample_world
                {| status := 200; orders := Some [order_ann; order_bob] |}
                order_ann [order_bob])
      as (chosen & Hrun & _ & Hnone);
      [discriminate | discriminate
      | apply (Hascii _ order_ann _ (or_introl eq_refl) eq_refl); simpl; auto
      | intros o e Ho He; apply (Hascii e o e Ho He); simpl; auto
      | reflexivity | reflexivity | reflexivity |].
    rewrite Hrun, Hnone; [reflexivity |].
    intros o [<- | [<- | []]] (e & [= <-] & He); discriminate.
Defined.

Lemma getOrder_single_criterion_witness :
  exists chosen pre post t,
    fst (getOrder sample_Date sample_upstream (Some "1001"%string) None
           sample_world)
    = Returned (Some chosen)
    /\ [order_ann; order_bob] = pre ++ chosen :: post
    /\ sample_Date (Order.created_at chosen) = Some t
    /\ (forall o u, In o [order_ann; order_bob] ->
          sample_Date (Order.created_at o) = Some u -> u <= t)
    /\ (forall o u, In o pre ->
          sample_Date (Order.created_at o) = Some u -> u < t).
Proof.
  apply (getOrder_single_criterion sample_Date sample_upstream
           (Some "1001"%string) None sample_world
           {| status := 200; orders := Some [order_ann; order_bob] |}
           order_ann [order_bob]);
    [reflexivity | reflexivity | reflexivity | reflexivity |].
  intros o [<- | [<- | []]]; eexists; reflexivity.
Defined.

(** ** Tracking number search *)

(** C5: the tracking search reads the first fulfillment only and returns
    nothing when there is none.  When the first element of the tracking
    list is not the empty string (or there is no such element) the result
    follows the stated order: first element of the list, else
    [tracking_number], else [trackingNumber], else the first line item that
    carries a tracking number, else nothing.  When the list starts with the
    empty string the two single fields are skipped: the result is the first
    line item's tracking number, else that empty string.  An order with a
    list, both single fields and a line item populated gets the first
    element of its list. *)
Theorem trackingNumber_of_fallback :
  (forall order, match Order.fulfillments order with
                 | Some (_ :: _) => True
                 | _ => trackingNumber_of order = None
                 end)
  /\ (forall name email created closed f fs,
        trackingNumber_of
          {| Order.name := name; Order.email := email;
             Order.created_at := created; Order.closed_at := closed;
             Order.fulfillments := Some (f :: fs) |}
        = trackingNumber_of
            {| Order.name := name; Order.email := email;
               Order.created_at := created; Order.closed_at := closed;
               Order.fulfillments := Some [f] |})
  /\ (forall order, first_listed order <> Some EmptyString ->
        trackingNumber_of order = spec_extractTracking order)
  /\ (forall order f fs ts,
        Order.fulfillments order = Some (f :: fs) ->
        Fulfillment.tracking_numbers f = Some (EmptyString :: ts) ->
        trackingNumber_of order
        = JS.or_else
            (line_item_tracking (default [] (Fulfillment.line_items f)))
            (Some EmptyString))
  /\ trackingNumber_of order_all_shapes = Some "LIST-1"%string.
Proof.
  split; [| split; [| split; [| split]]].
  - intros order. unfold trackingNumber_of.
    destruct (Order.fulfillments order) as [[| f fs] |]; auto.
  - reflexivity.
  - intros order. unfold first_listed, trackingNumber_of, spec_extractTracking.
    destruct (Order.fulfillments order) as [[| f fs] |]; auto.
    destruct (Fulfillment.tracking_numbers f) as [[| t ts] |].
    + intros _. destruct (JS.truthy (Fulfillment.tracking_number f)) eqn:E1;
        [destruct (Fulfillment.line_items f); rewrite ?E1; auto |].
      destruct (JS.truthy (Fulfillment.trackingNumber f)) eqn:E2;
        [destruct (Fulfillment.line_items f); rewrite ?E2; auto |].
      destruct (Fulfillment.line_items f) as [items |]; simpl; auto.
      destruct (line_item_tracking items); auto.
    + intros Ht. assert (Et : JS.truthy (Some t) = true).
      { apply truthy_Some. congruence. }
      destruct (Fulfillment.line_items f); rewrite ?Et; auto.
    + intros _. destruct (JS.truthy (Fulfillment.tracking_number f)) eqn:E1;
        [destruct (Fulfillment.line_items f); rewrite ?E1; auto |].
      destruct (JS.truthy (Fulfillment.trackingNumber f)) eqn:E2;
        [destruct (Fulfillment.line_items f); rewrite ?E2; auto |].
      destruct (Fulfillment.line_items f) as [items |]; simpl; auto.
      destruct (line_item_tracking items); auto.
  - intros order f fs ts Hf Hts. unfold trackingNumber_of.
    rewrite Hf, Hts. destruct (Fulfillment.line_items f); reflexivity.
  - reflexivity.
Qed.

Lemma trackingNumber_of_fallback_witness :
  trackingNumber_of order_all_shapes = spec_extractTracking order_all_shapes
  /\ trackingNumber_of order_blank_listed = Some "LI-1"%string.
Proof.
  destruct trackingNumber_of_fallback as (_ & _ & Hspec & Hblank & _).
  split.
  - apply (Hspec order_all_shapes). discriminate.
  - apply (Hblank order_blank_listed _ [] [] eq_refl eq_refl).
Defined.

(** C5, as stated, fails when the tracking list starts with an empty
    string: the stated order gives that first element, the code goes on to
    the line items. *)
Lemma trackingNumber_of_counterexample :
  spec_extractTracking order_blank_listed = Some ""%string
  /\ trackingNumber_of order_blank_listed = Some "LI-1"%string
  /\ trackingNumber_of order_blank_listed
     <> spec_extractTracking order_blank_listed.
Proof. repeat split; try reflexivity. discriminate. Qed.

(** ** Status classification *)

(** C1: for every order whose [closed_at] is set, the worker with button
    control returns status "Order Delivered" with [deliveredAt] equal to
    [closed_at], buttons disabled with the reason "Order has been
    delivered", and the tracking number that the search found, whatever it
    is and whatever the age of the order.  The worker of [src/index.js]
    returns the same status, tracking number and [deliveredAt], and the
    Express server the same status and [deliveredAt]; their results have no
    [buttonsDisabled] and no [disabledReason]. *)
Theorem determineOrderStatus_delivered (dayjs : string -> option Z) (now : Z)
    (order : Order.t) :
  JS.truthy (Order.closed_at order) = true ->
  ButtonWorker.determineOrderStatus dayjs now order
  = {| ButtonWorker.status := "Order Delivered";
       ButtonWorker.trackingNumber := trackingNumber_of order;
       ButtonWorker.deliveredAt := Order.closed_at order;
       ButtonWorker.buttonsDisabled := true;
       ButtonWorker.disabledReason := Some "Order has been delivered"%string |}
  /\ Worker.determineOrderStatus dayjs now order
     = {| Worker.status := "Order Delivered";
          Worker.trackingNumber := trackingNumber_of order;
          Worker.deliveredAt := Order.closed_at order |}
  /\ Worker.buttonsDisabled (Worker.determineOrderStatus dayjs now order) = None
  /\ Worker.disabledReason (Worker.determineOrderStatus dayjs now order) = None
  /\ Server.status (Server.determineOrderStatus dayjs now order)
     = "Order Delivered"%string
  /\ Server.deliveredAt (Server.determineOrderStatus dayjs now order)
     = Order.closed_at order
  /\ Server.buttonsDisabled (Server.determineOrderStatus dayjs now order) = None
  /\ Server.disabledReason (Server.determineOrderStatus dayjs now order) = None.
Proof.
  intros Hclosed.
  unfold ButtonWorker.determineOrderStatus, Worker.determineOrderStatus,
    Server.determineOrderStatus.
  rewrite Hclosed. repeat split.
Qed.

Lemma determineOrderStatus_delivered_witness :
  ButtonWorker.determineOrderStatus sample_Date 1705312800000 order_delivered
  = {| ButtonWorker.status := "Order Delivered";
       ButtonWorker.trackingNumber := Some "1Z999AA1234567890"%string;
       ButtonWorker.deliveredAt := Some "2024-01-14T16:45:00Z"%string;
       ButtonWorker.buttonsDisabled := true;
       ButtonWorker.disabledReason := Some "Order has been delivered"%string |}.
Proof.
  apply (determineOrderStatus_delivered sample_Date 1705312800000 order_delivered).
  reflexivity.
Defined.

(** C1, as stated, fails on the Express server: for a delivered order whose
    first fulfillment lists a tracking number the search finds that number,
    but the server reports no tracking number, and its result carries no
    button state. *)
Lemma determineOrderStatus_delivered_counterexample :
  JS.truthy (Order.closed_at order_delivered) = true
  /\ trackingNumber_of order_delivered = Some "1Z999AA1234567890"%string
  /\ Server.trackingNumber
       (Server.determineOrderStatus sample_Date 1705312800000 order_delivered)
     = None
  /\ Server.buttonsDisabled
       (Server.determineOrderStatus sample_Date 1705312800000 order_delivered)
     <> Some true.
Proof. repeat split; try reflexivity. discriminate. Qed.

(** C6: for every order without [closed_at], without a tracking number found
    and with a valid creation date, let [hours] be the difference between
    now and the creation time in hours, truncated.  When [hours < 48] the
    worker with button control returns "Order Processing" with buttons
    enabled and no reason; otherwise it returns "In Transit" with buttons
    disabled and the reason "Order is in transit (48+ hours)"; no tracking
    number and no delivery date either way.  The worker of [src/index.js]
    and the Express server return the same status, tracking number and
    delivery date; their results have no [buttonsDisabled] and no
    [disabledReason]. *)
Theorem determineOrderStatus_by_age (dayjs : string -> option Z) (now : Z)
    (order : Order.t) (created : Z) :
  JS.truthy (Order.closed_at order) = false ->
  JS.truthy (trackingNumber_of order) = false ->
  dayjs (Order.created_at order) = Some created ->
  let hours := Z.quot (now - created) 3600000 in
  (hours < 48 ->
     ButtonWorker.determineOrderStatus dayjs now order
     = {| ButtonWorker.status := "Order Processing";
          ButtonWorker.trackingNumber := None;
          ButtonWorker.deliveredAt := None;
          ButtonWorker.buttonsDisabled := false;
          ButtonWorker.disabledReason := None |}
     /\ Worker.determineOrderStatus dayjs now order
        = {| Worker.status := "Order Processing";
             Worker.trackingNumber := None;
             Worker.deliveredAt := None |}
     /\ Server.determineOrderStatus dayjs now order
        = {| Server.status := "Order Processing";
             Server.trackingNumber := None;
             Server.deliveredAt := None |})
  /\ (48 <= hours ->
     ButtonWorker.determineOrderStatus dayjs now order
     = {| ButtonWorker.status := "In Transit";
          ButtonWorker.trackingNumber := None;
          ButtonWorker.deliveredAt := None;
          ButtonWorker.buttonsDisabled := true;
          ButtonWorker.disabledReason :=
            Some "Order is in transit (48+ hours)"%string |}
     /\ Worker.determineOrderStatus dayjs now order
        = {| Worker.status := "In Transit";
             Worker.trackingNumber := None;
             Worker.deliveredAt := None |}
     /\ Server.determineOrderStatus dayjs now order
        = {| Server.status := "In Transit";
             Server.trackingNumber := None;
             Server.deliveredAt := None |})
  /\ Worker.buttonsDisabled (Worker.determineOrderStatus dayjs now order) = None
  /\ Worker.disabledReason (Worker.determineOrderStatus dayjs now order) = None
  /\ Server.buttonsDisabled (Server.determineOrderStatus dayjs now order) = None
  /\ Server.disabledReason (Server.determineOrderStatus dayjs now order) = None.
Proof.
  intros Hclosed Htracking Hcreated hours.
  unfold ButtonWorker.determineOrderStatus, Worker.determineOrderStatus,
    Server.determineOrderStatus.
  rewrite Hclosed, Htracking, Hcreated. unfold diff_hours, lt_48. simpl.
  fold hours.
  repeat split; destruct (Z.ltb_spec hours 48); auto; lia.
Qed.

(** [order_ann], created on 2024-01-10 at 10:00, seen 3 hours and 72 hours
    later. *)
Lemma determineOrderStatus_by_age_witness :
  ButtonWorker.status
    (ButtonWorker.determineOrderStatus sample_Date 1704891600000 order_ann)
  = "Order Processing"%string
  /\ ButtonWorker.disabledReason
       (ButtonWorker.determineOrderStatus sample_Date 1705140000000 order_ann)
     = Some "Order is in transit (48+ hours)"%string.
Proof.
  split.
  - destruct (determineOrderStatus_by_age sample_Date 1704891600000 order_ann
                1704880800000 eq_refl eq_refl eq_refl) as (H & _).
    destruct H as (-> & _ & _); [vm_compute; reflexivity | reflexivity].
  - destruct (determineOrderStatus_by_age sample_Date 1705140000000 order_ann
                1704880800000 eq_refl eq_refl eq_refl) as (_ & H & _).
    destruct H as (-> & _ & _); [vm_compute; discriminate | reflexivity].
Defined.

(** C6, as stated, fails on the worker of [src/index.js]: for an order
    created 72 hours ago, not closed and without tracking, the status is
    "In Transit" but the result carries neither the reason nor the button
    state. *)
Lemma determineOrderStatus_by_age_counterexample :
  JS.truthy (Order.closed_at order_ann) = false
  /\ JS.truthy (trackingNumber_of order_ann) = false
  /\ diff_hours 1705140000000 (sample_Date (Order.created_at order_ann)) = Some 72
  /\ Worker.status
       (Worker.determineOrderStatus sample_Date 1705140000000 order_ann)
     = "In Transit"%string
  /\ Worker.disabledReason
       (Worker.determineOrderStatus sample_Date 1705140000000 order_ann)
     <> Some "Order is in transit (48+ hours)"%string
  /\ Worker.buttonsDisabled
       (Worker.determineOrderStatus sample_Date 1705140000000 order_ann)
     <> Some true.
Proof. repeat split; try reflexivity; discriminate. Qed.

(** ** The tracking endpoint *)

Section Endpoint.

Variable Date : string -> option Z.
Variable dayjs : string -> option Z.
Variable toISOString : Z -> string.
Variable upstream : Query -> Fetched.
Variable now : Z.

Lemma handleTrack_admitted (request : Track.Request) (w : World) :
  fst (isAllowed (Track.clientIP request) 100 (15 * 60 * 1000) now (limiter w))
  = true ->
  valid_request request = true ->
  Track.handleTrack Date dayjs toISOString upstream now request w
  = match getOrder Date upstream (Track.orderNumber request)
            (Track.email request) (counted now request w) with
    | (Returned (Some order), w') =>
        (Returned (success_for dayjs toISOString now order), w')
    | (Returned None, w') =>
        (Returned
           (Track.createErrorResponse "Order not found"
              (String.append "No order found with the provided "
                 (Track.searchCriteria (Track.orderNumber request)
                    (Track.email request)))
              "ORDER_NOT_FOUND" 404), w')
    | (Thrown e, w') => (Returned (Track.on_error e), w')
    end.
Proof.
  intros Hallowed Hvalid.
  unfold Track.handleTrack, try_catch, bind, with_limiter, counted, ret,
    success_for.
  destruct (isAllowed (Track.clientIP request) 100 (15 * 60 * 1000) now
              (limiter w)) as [allowed l] eqn:Hl.
  simpl in Hallowed. subst allowed. cbn [negb snd].
  unfold valid_request in Hvalid.
  apply andb_true_iff in Hvalid as [Hvalid Hemail].
  apply andb_true_iff in Hvalid as [Hsome Horder].
  destruct (JS.truthy (Track.orderNumber request)),
           (JS.truthy (Track.email request));
    try discriminate; cbn [implb] in Horder, Hemail;
    rewrite ?Horder, ?Hemail; cbn [negb andb];
    destruct (getOrder _ _ _ _ _) as [[[order |] | e] w']; reflexivity.
Qed.

(** Every HTTP status is classified by the [catch] block as stated. *)
Lemma on_error_code (status : Z) :
  100 <= status <= 599 ->
  code_of (Track.on_error (api_error status)) = Some (upstream_code status).
Proof.
  intros Hrange.
  assert (Hall : forallb
            (fun s => bool_decide
               (code_of (Track.on_error (api_error s))
                = Some (upstream_code s)))
            (seqZ 100 500) = true) by (vm_compute; reflexivity).
  rewrite forallb_forall in Hall.
  specialize (Hall status). rewrite bool_decide_eq_true in Hall.
  apply Hall. apply list_elem_of_In, elem_of_seqZ. lia.
Qed.

(** C8: when the request is admitted and valid and the upstream answers
    with a status outside 200-299, the endpoint answers with a failure,
    never a success, after exactly one upstream request: status 401 gives
    the code SHOPIFY_AUTH_ERROR, 403 gives SHOPIFY_ACCESS_DENIED, every
    status from 500 to 599 gives SHOPIFY_SERVICE_UNAVAILABLE, and any
    other status gives the general INTERNAL_ERROR. *)
Theorem handleTrack_upstream_failure (request : Track.Request) (w : World)
    (q : Query) (response : Response) :
  fst (isAllowed (Track.clientIP request) 100 (15 * 60 * 1000) now (limiter w))
  = true ->
  valid_request request = true ->
  query_of (Track.orderNumber request) (Track.email request) = Some q ->
  upstream q = Resolved response ->
  ok response = false ->
  100 <= status response <= 599 ->
  exists answer w',
    Track.handleTrack Date dayjs toISOString upstream now request w
    = (Returned answer, w')
    /\ issued w' = issued w ++ [q]
    /\ code_of answer = Some (upstream_code (status response))
    /\ (status response = 401 -> code_of answer = Some "SHOPIFY_AUTH_ERROR"%string)
    /\ (status response = 403 ->
          code_of answer = Some "SHOPIFY_ACCESS_DENIED"%string)
    /\ (500 <= status response ->
          code_of answer = Some "SHOPIFY_SERVICE_UNAVAILABLE"%string).
Proof.
  intros Hallowed Hvalid Hq Hup Hok Hrange.
  rewrite handleTrack_admitted by auto.
  rewrite getOrder_unfold, Hq, Hup, Hok.
  eexists _, _. split; [reflexivity |]. split; [reflexivity |].
  fold (api_error (status response)).
  rewrite on_error_code by auto.
  split; [reflexivity |]. unfold upstream_code. repeat split.
  - intros ->. reflexivity.
  - intros ->. reflexivity.
  - intros H500.
    destruct (Z.eqb_spec (status response) 401); [lia |].
    destruct (Z.eqb_spec (status response) 403); [lia |].
    destruct (Z.leb_spec 500 (status response)); [| lia].
    destruct (Z.leb_spec (status response) 599); [| lia].
    reflexivity.
Qed.

Lemma replace_first_split (c : ascii) (pre post : string) :
  ~ In c (list_ascii_of_string pre) ->
  JS.replace_first c (String.append pre (String c post))
  = String.append pre post.
Proof.
  induction pre as [| d pre IH]; intros Hpre.
  - rewrite !append_nil_l. simpl. rewrite Ascii.eqb_refl. reflexivity.
  - rewrite !append_cons. simpl in *.
    destruct (Ascii.eqb_spec d c) as [-> | Hne]; [tauto |].
    rewrite IH by tauto. reflexivity.
Qed.

Lemma replace_first_absent (c : ascii) (s : string) :
  ~ In c (list_ascii_of_string s) -> JS.replace_first c s = s.
Proof.
  induction s as [| d s IH]; intros Hs; simpl in *; [reflexivity |].
  destruct (Ascii.eqb_spec d c) as [-> | Hne]; [tauto |].
  rewrite IH by tauto. reflexivity.
Qed.

(** C9: when the request is admitted and valid and the lookup locates an
    order, the endpoint answers with a success whose [orderNumber] is the
    display name of the order without its first [#], wherever that [#]
    stands: a name that starts with [#] loses that leading marker only,
    and a name without any [#] is returned unchanged. *)
Theorem handleTrack_orderNumber (request : Track.Request) (w : World)
    (q : Query) (response : Response) (order : Order.t) :
  fst (isAllowed (Track.clientIP request) 100 (15 * 60 * 1000) now (limiter w))
  = true ->
  valid_request request = true ->
  query_of (Track.orderNumber request) (Track.email request) = Some q ->
  upstream q = Resolved response ->
  ok response = true ->
  select_order Date (Track.orderNumber request) (Track.email request)
    (default [] (orders response)) = Some order ->
  exists answer w',
    Track.handleTrack Date dayjs toISOString upstream now request w
    = (Returned answer, w')
    /\ Track.http_status answer = 200
    /\ orderNumber_of answer
       = Some (JS.replace_first "#" (Order.name order))
    /\ (forall pre post,
          Order.name order = String.append pre (String "#" post) ->
          ~ In "#"%char (list_ascii_of_string pre) ->
          orderNumber_of answer = Some (String.append pre post))
    /\ (forall rest,
          Order.name order = String "#" rest ->
          orderNumber_of answer = Some rest)
    /\ (~ In "#"%char (list_ascii_of_string (Order.name order)) ->
          orderNumber_of answer = Some (Order.name order)).
Proof.
  intros Hallowed Hvalid Hq Hup Hok Hselect.
  rewrite handleTrack_admitted by auto.
  rewrite getOrder_unfold, Hq, Hup, Hok, Hselect.
  eexists _, _. split; [reflexivity |]. split; [reflexivity |].
  unfold orderNumber_of, success_for. cbn [Track.body Track.data_orderNumber].
  split; [reflexivity |]. repeat split.
  - intros pre post -> Hpre. rewrite replace_first_split by auto. reflexivity.
  - intros rest ->. reflexivity.
  - intros Habsent. rewrite replace_first_absent by auto. reflexivity.
Qed.

End Endpoint.

Lemma handleTrack_upstream_failure_witness :
  exists answer w',
    Track.handleTrack sample_Date sample_Date sample_toISOString
      (failing_upstream 503) 1705312800000 sample_request sample_world
    = (Returned answer, w')
    /\ issued w' = [ByEmail "ann@example.com"]
    /\ code_of answer = Some "SHOPIFY_SERVICE_UNAVAILABLE"%string.
Proof.
  destruct (handleTrack_upstream_failure sample_Date sample_Date
              sample_toISOString (failing_upstream 503) 1705312800000
              sample_request sample_world (ByEmail "ann@example.com")
              {| status := 503; orders := None |})
    as (answer & w' & Hrun & Hissued & Hcode & _);
    [vm_compute; reflexivity | vm_compute; reflexivity | reflexivity
    | reflexivity | reflexivity | simpl; lia |].
  exists answer, w'. auto.
Defined.

(** C8, as stated, fails for an upstream status such as 404: the endpoint
    answers with the general INTERNAL_ERROR, which is none of the upstream
    failure codes. *)
Lemma handleTrack_upstream_failure_counterexample :
  ok {| status := 404; orders := None |} = false
  /\ fst (Track.handleTrack sample_Date sample_Date sample_toISOString
            (failing_upstream 404) 1705312800000 sample_request sample_world)
     = Returned
         (Track.createErrorResponse "Internal server error"
            "An unexpected error occurred while processing your request"
            "INTERNAL_ERROR" 500)
  /\ ~ In "INTERNAL_ERROR"%string
        ["SHOPIFY_AUTH_ERROR"; "SHOPIFY_ACCESS_DENIED";
         "SHOPIFY_SERVICE_UNAVAILABLE"]%string.
Proof.
  split; [reflexivity |]. split; [vm_compute; reflexivity |].
  intros [H | [H | [H | []]]]; discriminate.
Qed.

Lemma handleTrack_orderNumber_witness :
  exists answer w',
    Track.handleTrack sample_Date sample_Date sample_toISOString
      sample_upstream 1705312800000 sample_request sample_world
    = (Returned answer, w')
    /\ Track.http_status answer = 200
    /\ orderNumber_of answer = Some "A1"%string.
Proof.
  destruct (handleTrack_orderNumber sample_Date sample_Date
              sample_toISOString sample_upstream 1705312800000
              sample_request sample_world (ByEmail "ann@example.com")
              {| status := 200; orders := Some [order_inner_marker] |}
              order_inner_marker)
    as (answer & w' & Hrun & Hstatus & Hnumber & _);
    [vm_compute; reflexivity | vm_compute; reflexivity | reflexivity
    | reflexivity | reflexivity | reflexivity |].
  exists answer, w'. auto.
Defined.

(** C9, as stated, fails for a display name that carries [#] elsewhere than
    in front: the name [A#1] has no leading marker, so the stated result is
    the name unchanged, but the endpoint answers [A1]. *)
Lemma handleTrack_orderNumber_counterexample :
  strip_marker (Order.name order_inner_marker) = "A#1"%string
  /\ (exists answer,
        fst (Track.handleTrack sample_Date sample_Date sample_toISOString
               sample_upstream 1705312800000 sample_request sample_world)
        = Returned answer
        /\ orderNumber_of answer = Some "A1"%string
        /\ orderNumber_of answer
           <> Some (strip_marker (Order.name order_inner_marker))).
Proof.
  split; [reflexivity |]. eexists. split; [vm_compute; reflexivity |].
  split; [reflexivity | discriminate].
Qed.

(** * Further properties of the code *)

(** ** The rate limiter and the history of its calls *)

Lemma run_snoc_results (maxRequests windowMs : Z) (calls : list (string * Z))
    (ip : string) (now : Z) (this : RateLimiter) :
  fst (run maxRequests windowMs (calls ++ [(ip, now)]) this)
  = fst (run maxRequests windowMs calls this)
    ++ [fst (isAllowed ip maxRequests windowMs now
               (snd (run maxRequests windowMs calls this)))].
Proof.
  revert this. induction calls as [| [ip' t] calls IH]; intros this; simpl.
  - destruct (isAllowed ip maxRequests windowMs now this); auto.
  - destruct (isAllowed ip' maxRequests windowMs t this) as [b this'].
    specialize (IH this').
    destruct (run maxRequests windowMs (calls ++ [(ip, now)]) this').
    destruct (run maxRequests windowMs calls this'). simpl in *.
    congruence.
Qed.

Lemma run_results_length (maxRequests windowMs : Z)
    (calls : list (string * Z)) (this : RateLimiter) :
  length (fst (run maxRequests windowMs calls this)) = length calls.
Proof.
  revert this. induction calls as [| [ip t] calls IH]; intros this; simpl.
  - auto.
  - destruct (isAllowed ip maxRequests windowMs t this) as [b this'].
    specialize (IH this').
    destruct (run maxRequests windowMs calls this'). simpl in *. lia.
Qed.

Lemma admitted_snoc (ip ip' : string) (now : Z) (b : bool)
    (calls : list (string * Z)) (results : list bool) :
  length results = length calls ->
  admitted ip (calls ++ [(ip', now)]) (results ++ [b])
  = admitted ip calls results
    ++ (if b && bool_decide (ip' = ip) then [now] else []).
Proof.
  revert results. induction calls as [| [ip'' t] calls IH];
    intros [| r results] Hlen; simpl in *; try discriminate.
  - destruct (b && bool_decide (ip' = ip)); auto.
  - rewrite IH by lia.
    destruct (r && bool_decide (ip'' = ip)); auto.
Qed.

Lemma admitted_no_call (ip : string) (calls : list (string * Z))
    (results : list bool) :
  last_call ip calls = None -> admitted ip calls results = [].
Proof.
  revert results. induction calls as [| [ip' t] calls IH];
    intros results; simpl; [auto |].
  destruct (last_call ip calls) eqn:Hlast; [discriminate |].
  destruct (decide (ip' = ip)) as [-> | Hne]; [discriminate |].
  intros _. destruct results as [| b results]; [auto |].
  rewrite bool_decide_eq_false_2 by auto. rewrite andb_false_r. auto.
Qed.

Lemma in_window_later (windowMs t u : Z) (times : list Z) :
  t <= u -> in_window windowMs u (in_window windowMs t times)
            = in_window windowMs u times.
Proof.
  intros Htu. unfold in_window. induction times as [| x times IH]; simpl; auto.
  destruct (Z.ltb_spec (t - windowMs) x) as [Ht | Ht]; simpl.
  - rewrite IH. auto.
  - destruct (Z.ltb_spec (u - windowMs) x); [lia | auto].
Qed.

Lemma in_window_app (windowMs t : Z) (xs ys : list Z) :
  in_window windowMs t (xs ++ ys)
  = in_window windowMs t xs ++ in_window windowMs t ys.
Proof. unfold in_window. apply List.filter_app. Qed.

(** The state of the limiter after a run, read off the history. *)
Lemma run_recorded (maxRequests windowMs : Z) (calls : list (string * Z)) :
  0 < windowMs ->
  nondecreasing (map snd calls) ->
  let result := run maxRequests windowMs calls newRateLimiter in
  wf (snd result)
  /\ forall ip,
       recorded (snd result) ip
       = (fun t => in_window windowMs t (admitted ip calls (fst result)))
         <$> last_call ip calls.
Proof.
  intros Hwin.
  induction calls as [| [ip now] calls IH] using rev_ind; intros Hnd.
  - simpl. split.
    + intros ip r. simpl. rewrite lookup_empty. discriminate.
    + intros ip. unfold recorded. simpl. rewrite lookup_empty. auto.
  - rewrite map_app in Hnd. simpl in Hnd.
    apply nondecreasing_snoc in Hnd as [Hnd Hle].
    specialize (IH Hnd). cbv zeta in IH. destruct IH as [Hwf IH].
    cbv zeta. rewrite run_snoc, run_snoc_results.
    pose proof (run_results_length maxRequests windowMs calls newRateLimiter)
      as Hlen.
    destruct (run maxRequests windowMs calls newRateLimiter) as [bs this].
    simpl in *.
    destruct (isAllowed_recorded ip maxRequests windowMs now this Hwf)
      as (Hwf' & Hother & Hself).
    split; [exact Hwf' |].
    intros ip'. rewrite last_call_snoc, admitted_snoc by auto.
    destruct (decide (ip = ip')) as [<- | Hne].
    + rewrite bool_decide_eq_true_2 by auto. rewrite andb_true_r. simpl.
      assert (Hkept : kept windowMs now this ip
                      = in_window windowMs now (admitted ip calls bs)).
      { unfold kept. rewrite IH.
        destruct (last_call ip calls) as [t |] eqn:Hlast; simpl.
        - apply in_window_later. apply Hle. eapply last_call_In; eauto.
        - rewrite admitted_no_call by auto. auto. }
      rewrite in_window_app, <- Hkept.
      destruct (Z.of_nat (length (kept windowMs now this ip)) >=? maxRequests).
      * destruct Hself as [-> ->]. simpl. rewrite app_nil_r. auto.
      * destruct Hself as [-> ->]. unfold in_window at 1. simpl.
        destruct (Z.ltb_spec (now - windowMs) now); [auto | lia].
    + rewrite Hother by auto. rewrite IH.
      rewrite bool_decide_eq_false_2 by auto. rewrite andb_false_r.
      rewrite app_nil_r. auto.
Qed.

(** X1: after a run of calls with non-decreasing times from a new limiter
    (positive window), what is recorded for a client that called is exactly
    the times of its admitted calls that lie in the window of its latest
    call, in order; rejected calls leave no trace, and a client that never
    called has no entry. *)
Theorem limiter_records_admitted (maxRequests windowMs : Z)
    (calls : list (string * Z)) (ip : string) :
  0 < windowMs ->
  nondecreasing (map snd calls) ->
  let result := run maxRequests windowMs calls newRateLimiter in
  recorded (snd result) ip
  = match last_call ip calls with
    | Some t => Some (in_window windowMs t (admitted ip calls (fst result)))
    | None => None
    end.
Proof.
  intros Hwin Hnd result.
  destruct (run_recorded maxRequests windowMs calls Hwin Hnd) as [_ H].
  fold result in H. rewrite H. destruct (last_call ip calls); auto.
Qed.

Lemma limiter_records_admitted_witness :
  recorded
    (snd (run 2 1000 [("a", 0); ("a", 100); ("a", 200); ("a", 1100)]%string
            newRateLimiter)) "a"
  = Some [1100].
Proof.
  rewrite (limiter_records_admitted 2 1000
             [("a", 0); ("a", 100); ("a", 200); ("a", 1100)]%string "a").
  - vm_compute. reflexivity.
  - lia.
  - simpl. repeat split; repeat constructor; lia.
Defined.

(** X2: in a run of calls with non-decreasing times from a new limiter
    (positive window, non-negative limit), at most [maxRequests] admitted
    calls of a client lie in the window that ends at its latest call. *)
Theorem limiter_rate_bound (maxRequests windowMs : Z)
    (calls : list (string * Z)) (ip : string) (t : Z) :
  0 <= maxRequests -> 0 < windowMs ->
  nondecreasing (map snd calls) ->
  last_call ip calls = Some t ->
  let results := fst (run maxRequests windowMs calls newRateLimiter) in
  Z.of_nat (length (in_window windowMs t (admitted ip calls results)))
  <= maxRequests.
Proof.
  intros Hmax Hwin Hnd Hlast results.
  destruct (run_recorded maxRequests windowMs calls Hwin Hnd) as [_ Hrec].
  destruct (run_invariant maxRequests windowMs calls Hmax Hwin Hnd)
    as [_ Hinv].
  specialize (Hrec ip). rewrite Hlast in Hrec. simpl in Hrec.
  apply Hinv in Hrec. tauto.
Qed.

Lemma limiter_rate_bound_witness :
  Z.of_nat
    (length
       (in_window 1000 200
          (admitted "a" [("a", 0); ("a", 100); ("a", 200)]%string
             (fst (run 2 1000 [("a", 0); ("a", 100); ("a", 200)]%string
                     newRateLimiter))))) <= 2.
Proof.
  apply (limiter_rate_bound 2 1000 [("a", 0); ("a", 100); ("a", 200)]%string
           "a" 200).
  - lia.
  - lia.
  - simpl. repeat split; repeat constructor; lia.
  - reflexivity.
Defined.

Lemma run_admits (maxRequests windowMs : Z)
    (calls : list (string * Z)) (ip : string) (now : Z) :
  0 < windowMs ->
  nondecreasing (map snd (calls ++ [(ip, now)])) ->
  let earlier := fst (run maxRequests windowMs calls newRateLimiter) in
  fst (run maxRequests windowMs (calls ++ [(ip, now)]) newRateLimiter)
  = earlier
    ++ [bool_decide
          (Z.of_nat (length (in_window windowMs now (admitted ip calls earlier)))
           < maxRequests)].
Proof.
  intros Hwin Hnd earlier. rewrite run_snoc_results. fold earlier. f_equal.
  rewrite map_app in Hnd. simpl in Hnd.
  apply nondecreasing_snoc in Hnd as [Hnd Hle].
  destruct (run_recorded maxRequests windowMs calls Hwin Hnd) as [Hwf Hrec].
  fold earlier in Hrec.
  set (this := snd (run maxRequests windowMs calls newRateLimiter)) in *.
  destruct (isAllowed_recorded ip maxRequests windowMs now this Hwf)
    as (_ & _ & Hself).
  assert (Hkept : kept windowMs now this ip
                  = in_window windowMs now (admitted ip calls earlier)).
  { unfold kept. rewrite Hrec.
    destruct (last_call ip calls) as [t |] eqn:Hlast; simpl.
    - apply in_window_later. apply Hle. eapply last_call_In; eauto.
    - rewrite admitted_no_call by auto. auto. }
  rewrite Hkept in Hself. f_equal.
  destruct (Z.of_nat (length (in_window windowMs now (admitted ip calls earlier)))
            >=? maxRequests) eqn:Hcmp.
  - destruct Hself as [-> _]. apply Z.geb_le in Hcmp.
    rewrite bool_decide_eq_false_2; [auto | lia].
  - destruct Hself as [-> _]. rewrite Z.geb_leb in Hcmp.
    apply Z.leb_gt in Hcmp. rewrite bool_decide_eq_true_2; auto.
Qed.

(** X3: in a run of calls with non-decreasing times from a new limiter
    (positive window), a call is admitted exactly when fewer than
    [maxRequests] earlier admitted calls of the same client lie in the
    window that ends at the call; rejected calls and the calls of other
    clients do not count. *)
Theorem limiter_admits_iff (maxRequests windowMs : Z)
    (calls : list (string * Z)) (ip : string) (now : Z) :
  0 < windowMs ->
  nondecreasing (map snd (calls ++ [(ip, now)])) ->
  let earlier := fst (run maxRequests windowMs calls newRateLimiter) in
  fst (run maxRequests windowMs (calls ++ [(ip, now)]) newRateLimiter)
  = earlier
    ++ [bool_decide
          (Z.of_nat (length (in_window windowMs now (admitted ip calls earlier)))
           < maxRequests)].
Proof. apply run_admits. Qed.

Lemma limiter_admits_iff_witness :
  fst (run 2 1000 [("a", 0); ("b", 50); ("a", 100); ("a", 200)]%string
         newRateLimiter)
  = [true; true; true; false].
Proof.
  change (fst (run 2 1000
                 ([("a", 0); ("b", 50); ("a", 100)]%string
                  ++ [("a"%string, 200)])%list newRateLimiter)
          = [true; true; true; false]).
  rewrite (limiter_admits_iff 2 1000 [("a", 0); ("b", 50); ("a", 100)]%string
             "a" 200).
  - vm_compute. reflexivity.
  - lia.
  - simpl. repeat split; repeat constructor; lia.
Defined.

Lemma isAllowed_dom (ip : string) (maxRequests windowMs now : Z)
    (this : RateLimiter) :
  dom (requests (snd (isAllowed ip maxRequests windowMs now this)))
  = {[ip]} ∪ dom (requests this).
Proof.
  unfold isAllowed, alloc.
  destruct (requests this !! ip) as [r |] eqn:Hip; simpl;
    match goal with
    | |- context [if ?c then _ else _] => destruct c
    end; simpl; rewrite ?dom_insert_L, ?union_assoc_L, ?union_idemp_L;
    reflexivity.
Qed.

(** X4: the limiter never removes a client: after any run of calls the
    clients with an entry are those that had one before together with
    every client that called, also when nothing is left in their window. *)
Theorem limiter_never_forgets (maxRequests windowMs : Z)
    (calls : list (string * Z)) (this : RateLimiter) :
  dom (requests (snd (run maxRequests windowMs calls this)))
  = dom (requests this) ∪ list_to_set (map fst calls).
Proof.
  revert this. induction calls as [| [ip now] calls IH]; intros this; simpl.
  - rewrite union_empty_r_L. reflexivity.
  - pose proof (isAllowed_dom ip maxRequests windowMs now this) as Hdom.
    destruct (isAllowed ip maxRequests windowMs now this) as [b this'].
    specialize (IH this').
    destruct (run maxRequests windowMs calls this') as [bs this''].
    simpl in *. rewrite IH, Hdom.
    rewrite (union_comm_L {[ip]} (dom (requests this))).
    rewrite <- union_assoc_L. reflexivity.
Qed.

(** ** Order lookup: normalisation and membership *)

Lemma insert_sorted_In {A} (cmp : A -> A -> Z) (x y : A) (l : list A) :
  In y (insert_sorted cmp x l) -> y = x \/ In y l.
Proof.
  induction l as [| a l IH]; simpl.
  - intros [<- | []]. auto.
  - destruct (cmp x a <=? 0); simpl.
    + intros [<- | H]; auto.
    + intros [<- | H]; auto. destruct (IH H); auto.
Qed.

Lemma sort_In {A} (cmp : A -> A -> Z) (y : A) (l : list A) :
  In y (sort cmp l) -> In y l.
Proof.
  unfold sort. induction l as [| a l IH]; simpl; [auto |].
  intros H. apply insert_sorted_In in H as [-> | H]; auto.
Qed.

Lemma head_In {A} (l : list A) (x : A) : head l = Some x -> In x l.
Proof. destruct l; simpl; [discriminate | intros [= ->]; auto]. Qed.

Lemma getOrder_member (Date : string -> option Z)
    (upstream : Query -> Fetched) (orderNumber email : option string)
    (w : World) (q : Query) (response : Response) :
  query_of orderNumber email = Some q ->
  upstream q = Resolved response ->
  ok response = true ->
  snd (getOrder Date upstream orderNumber email w) = record_request q w
  /\ match default [] (orders response) with
     | [] => fst (getOrder Date upstream orderNumber email w) = Returned None
     | _ :: _ =>
         exists order,
           fst (getOrder Date upstream orderNumber email w)
           = Returned (Some order)
           /\ In order (default [] (orders response))
     end.
Proof.
  intros Hq Hup Hok. rewrite getOrder_unfold, Hq, Hup, Hok. simpl.
  split; [reflexivity |].
  destruct (default [] (orders response)) as [| o os] eqn:Hos; [reflexivity |].
  unfold select_order.
  destruct (JS.truthy orderNumber && JS.truthy email).
  - destruct (List.find (email_matches (default "" email)) (o :: os))
      as [found |] eqn:Hfind; simpl.
    + exists found. split; [reflexivity |].
      apply find_some in Hfind. tauto.
    + exists o. split; [reflexivity | left; reflexivity].
  - destruct (head (sort (by_created_desc Date) (o :: os))) as [x |] eqn:Hhead.
    + exists x. split; [reflexivity |].
      apply head_In, sort_In in Hhead. auto.
    + exfalso. unfold sort in Hhead. simpl in Hhead.
      destruct (insert_sorted (by_created_desc Date) o
                  (foldr (insert_sorted (by_created_desc Date)) [] os))
        eqn:Hins; [| discriminate].
      apply insert_sorted_not_nil in Hins. auto.
Qed.

(** X5: for a successful upstream response, the lookup returns [null]
    when the response has no orders (an absent [orders] property counts as
    empty), and otherwise returns one of the orders of the response, never
    anything else; either way exactly one upstream request is issued. *)
Theorem getOrder_returns_member (Date : string -> option Z)
    (upstream : Query -> Fetched) (orderNumber email : option string)
    (w : World) (q : Query) (response : Response) :
  query_of orderNumber email = Some q ->
  upstream q = Resolved response ->
  ok response = true ->
  snd (getOrder Date upstream orderNumber email w) = record_request q w
  /\ match default [] (orders response) with
     | [] => fst (getOrder Date upstream orderNumber email w) = Returned None
     | _ :: _ =>
         exists order,
           fst (getOrder Date upstream orderNumber email w)
           = Returned (Some order)
           /\ In order (default [] (orders response))
     end.
Proof. apply getOrder_member. Qed.

Lemma getOrder_returns_member_witness :
  exists order,
    fst (getOrder sample_Date sample_upstream (Some "1001"%string) None
           sample_world) = Returned (Some order)
    /\ In order [order_ann; order_bob].
Proof.
  apply (getOrder_returns_member sample_Date sample_upstream
           (Some "1001"%string) None sample_world (ByName "#1001")
           {| status := 200; orders := Some [order_ann; order_bob] |});
    reflexivity.
Defined.

(** X6: an order number is looked up the same way with and without its
    leading [#]: for a non-empty order number that does not start with
    [#], the lookup of [#] followed by it is the same computation, with
    the same upstream request and the same result, whatever the email. *)
Theorem getOrder_marker_insensitive (Date : string -> option Z)
    (upstream : Query -> Fetched) (orderNumber : string)
    (email : option string) (w : World) :
  orderNumber <> EmptyString ->
  JS.startsWith orderNumber "#" = false ->
  getOrder Date upstream (Some (String "#" orderNumber)) email w
  = getOrder Date upstream (Some orderNumber) email w.
Proof.
  intros Hne Hstart. rewrite !getOrder_unfold. unfold query_of, select_order.
  apply truthy_Some in Hne. rewrite Hne.
  assert (Hmarked : JS.truthy (Some (String "#" orderNumber)) = true)
    by reflexivity.
  rewrite Hmarked. cbn [default from_option id].
  assert (Hname : display_name (String "#" orderNumber)
                  = display_name orderNumber).
  { unfold display_name. rewrite Hstart. unfold JS.startsWith.
    destruct orderNumber; reflexivity. }
  rewrite Hname. reflexivity.
Qed.

Lemma getOrder_marker_insensitive_witness :
  getOrder sample_Date sample_upstream (Some "#1001"%string)
    (Some "bob@example.com"%string) sample_world
  = getOrder sample_Date sample_upstream (Some "1001"%string)
      (Some "bob@example.com"%string) sample_world.
Proof.
  apply (getOrder_marker_insensitive sample_Date sample_upstream "1001"
           (Some "bob@example.com"%string) sample_world).
  - discriminate.
  - reflexivity.
Defined.

(** ** The tracking endpoint: effects and rejections *)

Section EndpointEffects.

Variable Date : string -> option Z.
Variable dayjs : string -> option Z.
Variable toISOString : Z -> string.
Variable upstream : Query -> Fetched.
Variable now : Z.

Lemma handleTrack_rejected (request : Track.Request) (w : World) :
  fst (isAllowed (Track.clientIP request) 100 (15 * 60 * 1000) now (limiter w))
  = false ->
  Track.handleTrack Date dayjs toISOString upstream now request w
  = (Returned rate_limited, counted now request w).
Proof.
  intros Hallowed.
  unfold Track.handleTrack, try_catch, bind, with_limiter, counted, ret.
  destruct (isAllowed (Track.clientIP request) 100 (15 * 60 * 1000) now
              (limiter w)) as [allowed l].
  simpl in Hallowed. subst allowed. reflexivity.
Qed.

Lemma handleTrack_invalid (request : Track.Request) (w : World) :
  fst (isAllowed (Track.clientIP request) 100 (15 * 60 * 1000) now (limiter w))
  = true ->
  valid_request request = false ->
  exists code,
    Track.handleTrack Date dayjs toISOString upstream now request w
    = (Returned {| Track.http_status := 400;
                   Track.body := Track.Failure (fst (fst code)) (snd (fst code))
                                   (snd code) |},
       counted now request w)
    /\ In (snd code)
         ["MISSING_FIELDS"; "INVALID_ORDER_NUMBER"; "INVALID_EMAIL"]%string
    /\ (JS.truthy (Track.orderNumber request) = false ->
        JS.truthy (Track.email request) = false ->
        snd code = "MISSING_FIELDS"%string)
    /\ (JS.truthy (Track.orderNumber request) = true ->
        validateOrderNumber (default "" (Track.orderNumber request)) = false ->
        snd code = "INVALID_ORDER_NUMBER"%string).
Proof.
  intros Hallowed Hvalid.
  unfold Track.handleTrack, try_catch, bind, with_limiter, counted, ret.
  destruct (isAllowed (Track.clientIP request) 100 (15 * 60 * 1000) now
              (limiter w)) as [allowed l].
  simpl in Hallowed. subst allowed. cbn [negb snd].
  unfold valid_request in Hvalid.
  destruct (JS.truthy (Track.orderNumber request)) eqn:Eon,
           (JS.truthy (Track.email request)) eqn:Eem;
    cbn [orb implb andb negb] in *;
    try destruct (validateOrderNumber (default "" (Track.orderNumber request)))
      eqn:Evo;
    try destruct (validateEmail (default "" (Track.email request))) eqn:Eve;
    cbn [orb implb andb negb] in *; try discriminate;
    eexists (_, _, _); (split; [reflexivity |]); simpl;
    repeat split; auto; try discriminate; tauto.
Qed.

(** X7: [handleTrack] never throws: it answers every request whose email,
    if any, is an ASCII string.  Whatever the answer, the limiter is called
    exactly once, for the client of the request, and the upstream store is
    contacted exactly when the request is admitted and valid, and then
    exactly once, with the request that the order number or else the email
    determines. *)
Theorem handleTrack_effects (request : Track.Request) (w : World) :
  ascii_email request ->
  exists answer w',
    Track.handleTrack Date dayjs toISOString upstream now request w
    = (Returned answer, w')
    /\ limiter w'
       = snd (isAllowed (Track.clientIP request) 100 (15 * 60 * 1000) now
                (limiter w))
    /\ if fst (isAllowed (Track.clientIP request) 100 (15 * 60 * 1000) now
                 (limiter w))
          && valid_request request
       then exists q,
              query_of (Track.orderNumber request) (Track.email request)
              = Some q
              /\ issued w' = issued w ++ [q]
       else issued w' = issued w.
Proof.
  intros _.
  destruct (fst (isAllowed (Track.clientIP request) 100 (15 * 60 * 1000) now
                   (limiter w))) eqn:Hallowed.
  - destruct (valid_request request) eqn:Hvalid; cbn [andb].
    + rewrite handleTrack_admitted by auto. rewrite getOrder_unfold.
      assert (Hq : exists q,
                 query_of (Track.orderNumber request) (Track.email request)
                 = Some q).
      { unfold valid_request in Hvalid. unfold query_of.
        destruct (JS.truthy (Track.orderNumber request)); [eauto |].
        destruct (JS.truthy (Track.email request)); [eauto | discriminate]. }
      destruct Hq as [q Hq]. rewrite Hq.
      destruct (upstream q) as [r | e].
      * destruct (ok r).
        -- destruct (select_order Date _ _ _); eexists _, _;
             (split; [reflexivity |]); split; eauto.
        -- eexists _, _. split; [reflexivity |]. split; eauto.
      * eexists _, _. split; [reflexivity |]. split; eauto.
    + destruct (handleTrack_invalid request w Hallowed Hvalid)
        as (code & Hrun & _).
      rewrite Hrun. eexists _, _. split; [reflexivity |]. split; reflexivity.
  - rewrite handleTrack_rejected by auto. cbn [andb].
    eexists _, _. split; [reflexivity |]. split; reflexivity.
Qed.

(** X8: (for a well-formed limiter) [handleTrack] answers 429 exactly when
    the client of the request already has at least 100 recorded requests in
    the last 15 minutes; the answer is then RATE_LIMIT_EXCEEDED, the
    upstream store is not contacted and the request is not recorded. *)
Theorem handleTrack_rate_limited_iff (request : Track.Request) (w : World) :
  wf (limiter w) ->
  let inside := kept (15 * 60 * 1000) now (limiter w) (Track.clientIP request) in
  let result :=
    Track.handleTrack Date dayjs toISOString upstream now request w in
  ((exists answer, fst result = Returned answer
                   /\ Track.http_status answer = 429)
   <-> 100 <= Z.of_nat (length inside))
  /\ (100 <= Z.of_nat (length inside) ->
      fst result = Returned rate_limited
      /\ issued (snd result) = issued w
      /\ recorded (limiter (snd result)) (Track.clientIP request)
         = Some inside).
Proof.
  intros Hwf inside result.
  destruct (isAllowed_recorded (Track.clientIP request) 100 (15 * 60 * 1000)
              now (limiter w) Hwf) as (_ & _ & Hself).
  fold inside in Hself. cbv zeta in Hself.
  destruct (Z.of_nat (length inside) >=? 100) eqn:Hcmp.
  - apply Z.geb_le in Hcmp. destruct Hself as [Hrej Hrec].
    unfold result. rewrite handleTrack_rejected by auto. simpl.
    split; [split; [auto | intros _; exists rate_limited; auto] |].
    intros _. auto.
  - rewrite Z.geb_leb in Hcmp. apply Z.leb_gt in Hcmp.
    destruct Hself as [Hadm _].
    split; [| lia]. split; [| lia].
    intros (answer & Hrun & Hstatus). exfalso. unfold result in Hrun.
    destruct (valid_request request) eqn:Hvalid.
    + rewrite handleTrack_admitted in Hrun by auto.
      rewrite getOrder_unfold in Hrun.
      destruct (query_of _ _) as [q |]; simpl in Hrun.
      * destruct (upstream q) as [r | e].
        -- destruct (ok r).
           ++ destruct (select_order Date _ _ _); simpl in Hrun;
                injection Hrun as <-; discriminate.
           ++ simpl in Hrun. injection Hrun as <-. revert Hstatus.
              unfold Track.on_error.
              repeat match goal with
                     | |- context [if ?c then _ else _] => destruct c
                     end; discriminate.
        -- simpl in Hrun. injection Hrun as <-. revert Hstatus.
           unfold Track.on_error.
           repeat match goal with
                  | |- context [if ?c then _ else _] => destruct c
                  end; discriminate.
      * injection Hrun as <-. discriminate.
    + destruct (handleTrack_invalid request w Hadm Hvalid)
        as (code & Hrun' & _).
      rewrite Hrun' in Hrun. simpl in Hrun. injection Hrun as <-.
      discriminate.
Qed.

(** X9: an admitted request whose email, if any, is an ASCII string and
    that fails validation is answered 400 with MISSING_FIELDS,
    INVALID_ORDER_NUMBER or INVALID_EMAIL, the order number being checked
    before the email, without any upstream request; it still counts
    against the limit of its client (for a well-formed limiter, its time is
    recorded). *)
Theorem handleTrack_invalid_counts (request : Track.Request) (w : World) :
  ascii_email request ->
  wf (limiter w) ->
  fst (isAllowed (Track.clientIP request) 100 (15 * 60 * 1000) now (limiter w))
  = true ->
  valid_request request = false ->
  let result :=
    Track.handleTrack Date dayjs toISOString upstream now request w in
  exists answer code,
    fst result = Returned answer
    /\ Track.http_status answer = 400
    /\ code_of answer = Some code
    /\ In code ["MISSING_FIELDS"; "INVALID_ORDER_NUMBER"; "INVALID_EMAIL"]%string
    /\ (JS.truthy (Track.orderNumber request) = true ->
        validateOrderNumber (default "" (Track.orderNumber request)) = false ->
        code = "INVALID_ORDER_NUMBER"%string)
    /\ issued (snd result) = issued w
    /\ recorded (limiter (snd result)) (Track.clientIP request)
       = Some (kept (15 * 60 * 1000) now (limiter w) (Track.clientIP request)
               ++ [now]).
Proof.
  intros _ Hwf Hallowed Hvalid result.
  destruct (handleTrack_invalid request w Hallowed Hvalid)
    as (code & Hrun & Hin & _ & Horder).
  unfold result. rewrite Hrun. simpl.
  eexists _, (snd code). split; [reflexivity |].
  repeat split; auto.
  destruct (isAllowed_recorded (Track.clientIP request) 100 (15 * 60 * 1000)
              now (limiter w) Hwf) as (_ & _ & Hself).
  cbv zeta in Hself.
  destruct (Z.of_nat (length (kept (15 * 60 * 1000) now (limiter w)
                                (Track.clientIP request))) >=? 100).
  - destruct Hself as [Hrej _]. congruence.
  - tauto.
Qed.

(** X10: for an admitted, valid request that the upstream store answers,
    [handleTrack] answers 404 exactly when the upstream response is
    successful and has no orders (an absent [orders] property included);
    the answer is then ORDER_NOT_FOUND and names the criteria supplied. *)
Theorem handleTrack_not_found_iff (request : Track.Request) (w : World)
    (q : Query) (response : Response) :
  fst (isAllowed (Track.clientIP request) 100 (15 * 60 * 1000) now (limiter w))
  = true ->
  valid_request request = true ->
  query_of (Track.orderNumber request) (Track.email request) = Some q ->
  upstream q = Resolved response ->
  exists answer,
    fst (Track.handleTrack Date dayjs toISOString upstream now request w)
    = Returned answer
    /\ (Track.http_status answer = 404
        <-> ok response = true /\ default [] (orders response) = [])
    /\ (Track.http_status answer = 404 -> answer = not_found request).
Proof.
  intros Hallowed Hvalid Hq Hup.
  rewrite handleTrack_admitted by auto.
  destruct (ok response) eqn:Hok.
  - destruct (getOrder_member Date upstream _ _
                (counted now request w) q response Hq Hup Hok)
      as [_ Hmember].
    destruct (default [] (orders response)) as [| o os].
    + destruct (getOrder _ _ _ _ _) as [outcome w'].
      simpl in Hmember. subst outcome.
      exists (not_found request). split; [reflexivity |].
      split; [split; auto | auto].
    + destruct Hmember as (order & Hrun & _).
      destruct (getOrder _ _ _ _ _) as [outcome w'].
      simpl in Hrun. subst outcome.
      eexists. split; [reflexivity |]. simpl.
      split; [split; [discriminate | intros [_ H]; discriminate] |
              discriminate].
  - rewrite getOrder_unfold, Hq, Hup, Hok.
    simpl. eexists. split; [reflexivity |].
    assert (Hnot : Track.http_status
                     (Track.on_error (api_error (status response))) <> 404).
    { unfold Track.on_error.
      repeat match goal with
             | |- context [if ?c then _ else _] => destruct c
             end; discriminate. }
    unfold api_error in Hnot.
    split; [split; [tauto | intros [H _]; discriminate] | tauto].
Qed.

Lemma replace_first_display_name (orderNumber : string) :
  JS.replace_first "#" (display_name orderNumber) = strip_marker orderNumber.
Proof.
  unfold display_name, JS.startsWith.
  destruct orderNumber as [| c rest]; [reflexivity |].
  simpl. destruct (ascii_dec "#" c) as [<- | Hne].
  - destruct rest; reflexivity.
  - simpl.
    destruct c as [[] [] [] [] [] [] [] []]; try reflexivity; congruence.
Qed.

(** X11: when the order located for an admitted, valid request bears the
    display name that the lookup asked for (the order number with [#] in
    front unless it already starts with [#]), the [orderNumber] of the answer
    is the order number of the request without its leading [#], if it has
    one. *)
Theorem handleTrack_orderNumber_round_trip (request : Track.Request)
    (w : World) (orderNumber : string) (response : Response)
    (order : Order.t) :
  fst (isAllowed (Track.clientIP request) 100 (15 * 60 * 1000) now (limiter w))
  = true ->
  valid_request request = true ->
  Track.orderNumber request = Some orderNumber ->
  orderNumber <> EmptyString ->
  upstream (ByName (display_name orderNumber)) = Resolved response ->
  ok response = true ->
  select_order Date (Track.orderNumber request) (Track.email request)
    (default [] (orders response)) = Some order ->
  Order.name order = display_name orderNumber ->
  exists answer,
    fst (Track.handleTrack Date dayjs toISOString upstream now request w)
    = Returned answer
    /\ orderNumber_of answer = Some (strip_marker orderNumber).
Proof.
  intros Hallowed Hvalid Hon Hne Hup Hok Hselect Hname.
  rewrite handleTrack_admitted by auto.
  rewrite getOrder_unfold. unfold query_of. rewrite Hon.
  apply truthy_Some in Hne. rewrite Hne. cbn [default from_option id].
  rewrite Hup, Hok. rewrite Hon in Hselect. rewrite Hselect. simpl.
  eexists. split; [reflexivity |].
  unfold orderNumber_of, success_for. simpl.
  rewrite Hname, replace_first_display_name. reflexivity.
Qed.

End EndpointEffects.

(** ** Order status: the three variants and time *)

(** X12: the three variants of [determineOrderStatus] report the same status
    and the same delivery date for every order at every time.  The worker of
    [src/index.js] returns exactly the status, tracking number and delivery
    date of the worker with button control; the Express server returns the
    same tracking number too unless the order is closed, where it returns
    none. *)
Theorem determineOrderStatus_variants_agree (dayjs : string -> option Z)
    (now : Z) (order : Order.t) :
  let full := ButtonWorker.determineOrderStatus dayjs now order in
  Worker.determineOrderStatus dayjs now order
  = {| Worker.status := ButtonWorker.status full;
       Worker.trackingNumber := ButtonWorker.trackingNumber full;
       Worker.deliveredAt := ButtonWorker.deliveredAt full |}
  /\ Server.determineOrderStatus dayjs now order
     = {| Server.status := ButtonWorker.status full;
          Server.trackingNumber :=
            if JS.truthy (Order.closed_at order) then None
            else ButtonWorker.trackingNumber full;
          Server.deliveredAt := ButtonWorker.deliveredAt full |}.
Proof.
  unfold ButtonWorker.determineOrderStatus, Worker.determineOrderStatus,
    Server.determineOrderStatus.
  destruct (JS.truthy (Order.closed_at order)); [split; reflexivity |].
  destruct (JS.truthy (trackingNumber_of order)); [split; reflexivity |].
  destruct (lt_48 _); split; reflexivity.
Qed.

(** X13: in every result of the worker with button control, the status is
    one of the three status texts; the buttons are enabled exactly when the
    status is "Order Processing"; a reason is given exactly when the buttons
    are disabled; a delivery date is set exactly when the status is "Order
    Delivered"; and outside "Order Delivered" a tracking number, when
    present, is not empty. *)
Theorem determineOrderStatus_button_invariant (dayjs : string -> option Z)
    (now : Z) (order : Order.t) :
  let info := ButtonWorker.determineOrderStatus dayjs now order in
  In (ButtonWorker.status info)
    ["Order Delivered"; "In Transit"; "Order Processing"]%string
  /\ (ButtonWorker.buttonsDisabled info = false
      <-> ButtonWorker.status info = "Order Processing"%string)
  /\ (ButtonWorker.disabledReason info = None
      <-> ButtonWorker.buttonsDisabled info = false)
  /\ (JS.truthy (ButtonWorker.deliveredAt info) = true
      <-> ButtonWorker.status info = "Order Delivered"%string)
  /\ (ButtonWorker.status info <> "Order Delivered"%string ->
      ButtonWorker.trackingNumber info = None
      \/ JS.truthy (ButtonWorker.trackingNumber info) = true).
Proof.
  unfold ButtonWorker.determineOrderStatus.
  destruct (JS.truthy (Order.closed_at order)) eqn:Hclosed;
    [| destruct (JS.truthy (trackingNumber_of order)) eqn:Htracking;
       [| destruct (lt_48 _)]];
    simpl; rewrite ?Hclosed;
    repeat split; auto; try discriminate; try tauto; congruence.
Qed.

Lemma lt_48_later (now now' : Z) (created : option Z) :
  now <= now' ->
  lt_48 (diff_hours now created) = false ->
  lt_48 (diff_hours now' created) = false.
Proof.
  intros Hle. destruct created as [c |]; simpl; [| auto].
  rewrite !Z.ltb_ge. intros H.
  assert (Z.quot (now - c) 3600000 <= Z.quot (now' - c) 3600000)
    by (apply Z.quot_le_mono; lia).
  lia.
Qed.

(** X14: as time passes the status of an order never goes back to "Order
    Processing": once the worker with button control reports another status
    for an order, it returns the very same result for that order at every
    later time. *)
Theorem determineOrderStatus_never_goes_back (dayjs : string -> option Z)
    (now now' : Z) (order : Order.t) :
  now <= now' ->
  ButtonWorker.status (ButtonWorker.determineOrderStatus dayjs now order)
  <> "Order Processing"%string ->
  ButtonWorker.determineOrderStatus dayjs now' order
  = ButtonWorker.determineOrderStatus dayjs now order.
Proof.
  intros Hle. unfold ButtonWorker.determineOrderStatus.
  destruct (JS.truthy (Order.closed_at order)); [auto |].
  destruct (JS.truthy (trackingNumber_of order)); [auto |].
  destruct (lt_48 (diff_hours now (dayjs (Order.created_at order))))
    eqn:Hnow; simpl; [congruence |].
  intros _. rewrite (lt_48_later now now' _ Hle Hnow). reflexivity.
Qed.

Lemma determineOrderStatus_never_goes_back_witness :
  ButtonWorker.determineOrderStatus sample_Date 1705312800000 order_ann
  = ButtonWorker.determineOrderStatus sample_Date 1705140000000 order_ann.
Proof.
  apply (determineOrderStatus_never_goes_back sample_Date
           1705140000000 1705312800000 order_ann).
  - lia.
  - vm_compute. discriminate.
Defined.

Lemma quot_hours_lt_48 (d : Z) :
  Z.quot d 3600000 < 48 <-> d < 172800000.
Proof.
  destruct (Z_lt_le_dec d 0) as [Hneg | Hpos].
  - assert (Hq : Z.quot d 3600000 = - Z.quot (- d) 3600000)
      by (rewrite Z.quot_opp_l by lia; lia).
    pose proof (Z.quot_pos (- d) 3600000 ltac:(lia) ltac:(lia)). lia.
  - pose proof (Z.quot_rem' d 3600000) as Hd.
    pose proof (Z.rem_bound_pos d 3600000 ltac:(lia) ltac:(lia)). lia.
Qed.

(** X15: for an order that is not closed and has no tracking number, the
    truncation to whole hours does not move the threshold: with a valid
    creation date the status is "Order Processing" exactly when fewer than
    172800000 ms (48 hours) have passed since the creation, a creation date
    in the future included; with a creation date that does not parse the
    status is "In Transit" with the reason "Order is in transit (48+
    hours)". *)
Theorem determineOrderStatus_threshold (dayjs : string -> option Z) (now : Z)
    (order : Order.t) :
  JS.truthy (Order.closed_at order) = false ->
  JS.truthy (trackingNumber_of order) = false ->
  let info := ButtonWorker.determineOrderStatus dayjs now order in
  match dayjs (Order.created_at order) with
  | Some created =>
      (ButtonWorker.status info = "Order Processing"%string
       <-> now - created < 172800000)
      /\ (ButtonWorker.status info = "In Transit"%string
          <-> 172800000 <= now - created)
  | None =>
      ButtonWorker.status info = "In Transit"%string
      /\ ButtonWorker.disabledReason info
         = Some "Order is in transit (48+ hours)"%string
  end.
Proof.
  intros Hclosed Htracking. unfold ButtonWorker.determineOrderStatus.
  rewrite Hclosed, Htracking.
  destruct (dayjs (Order.created_at order)) as [created |]; simpl;
    [| split; reflexivity].
  pose proof (quot_hours_lt_48 (now - created)) as Hq.
  destruct (Z.ltb_spec (Z.quot (now - created) 3600000) 48); simpl.
  - split; split; auto; try discriminate; lia.
  - split; split; auto; try discriminate; lia.
Qed.

Lemma determineOrderStatus_threshold_witness :
  ButtonWorker.status
    (ButtonWorker.determineOrderStatus sample_Date (1704880800000 + 172799999)
       order_ann) = "Order Processing"%string
  /\ ButtonWorker.status
       (ButtonWorker.determineOrderStatus sample_Date
          (1704880800000 + 172800000) order_ann) = "In Transit"%string.
Proof.
  split.
  - apply (determineOrderStatus_threshold sample_Date
             (1704880800000 + 172799999) order_ann eq_refl eq_refl).
    lia.
  - apply (determineOrderStatus_threshold sample_Date
             (1704880800000 + 172800000) order_ann eq_refl eq_refl).
    lia.
Defined.

(** ** Tracking number search: the line items *)

(** X16: the scan of the line items returns the tracking number of the
    first line item that has a non-empty one, and nothing exactly when no
    line item has one; what it returns is never empty. *)
Theorem line_item_tracking_first (items : list LineItem.t) :
  match line_item_tracking items with
  | Some t =>
      t <> EmptyString
      /\ exists before item after,
           items = before ++ item :: after
           /\ LineItem.tracking_number item = Some t
           /\ forall other, In other before ->
                JS.truthy (LineItem.tracking_number other) = false
  | None =>
      forall item, In item items ->
        JS.truthy (LineItem.tracking_number item) = false
  end.
Proof.
  induction items as [| item items IH]; simpl.
  - intros item [].
  - destruct (JS.truthy (LineItem.tracking_number item)) eqn:Hitem.
    + destruct (LineItem.tracking_number item) as [t |] eqn:Ht;
        [| discriminate].
      split; [apply truthy_Some; auto |].
      exists [], item, items. repeat split; auto. intros other [].
    + destruct (line_item_tracking items) as [t |].
      * destruct IH as (Hne & before & found & after & -> & Hfound & Hbefore).
        split; [auto |].
        exists (item :: before), found, after. repeat split; auto.
        intros other [<- | Hother]; auto.
      * intros other [<- | Hother]; auto.
Qed.

Lemma handleTrack_effects_witness :
  exists answer w',
    Track.handleTrack sample_Date sample_Date sample_toISOString
      sample_upstream 1705312800000 sample_request sample_world
    = (Returned answer, w')
    /\ issued w' = [ByEmail "ann@example.com"].
Proof.
  assert (Hascii : ascii_email sample_request).
  { intros e [= <-] c Hc. simpl in Hc.
    repeat (destruct Hc as [<- | Hc]; [reflexivity |]). destruct Hc. }
  destruct (handleTrack_effects sample_Date sample_Date sample_toISOString
              sample_upstream 1705312800000 sample_request sample_world
              Hascii) as (answer & w' & Hrun & _ & Hissued).
  exists answer, w'. split; [exact Hrun |].
  match type of Hissued with
  | if ?c then _ else _ =>
      replace c with true in Hissued by (vm_compute; reflexivity)
  end.
  destruct Hissued as (q & Hq & ->). vm_compute in Hq.
  injection Hq as <-. reflexivity.
Defined.

Lemma handleTrack_rate_limited_iff_witness :
  ~ exists answer,
      fst (Track.handleTrack sample_Date sample_Date sample_toISOString
             sample_upstream 1705312800000 sample_request sample_world)
      = Returned answer
      /\ Track.http_status answer = 429.
Proof.
  assert (Hwf : wf (limiter sample_world)).
  { intros ip r. simpl. rewrite lookup_empty. discriminate. }
  destruct (handleTrack_rate_limited_iff sample_Date sample_Date
              sample_toISOString sample_upstream 1705312800000
              sample_request sample_world Hwf) as [[Hiff _] _].
  intros H. apply Hiff in H. vm_compute in H. apply H. reflexivity.
Defined.

Lemma handleTrack_invalid_counts_witness :
  exists answer code,
    fst (Track.handleTrack sample_Date sample_Date sample_toISOString
           sample_upstream 1705312800000 request_invalid sample_world)
    = Returned answer
    /\ Track.http_status answer = 400
    /\ code_of answer = Some code
    /\ code = "INVALID_ORDER_NUMBER"%string.
Proof.
  assert (Hwf : wf (limiter sample_world)).
  { intros ip r. simpl. rewrite lookup_empty. discriminate. }
  assert (Hascii : ascii_email request_invalid).
  { intros e [= <-] c Hc. simpl in Hc.
    repeat (destruct Hc as [<- | Hc]; [reflexivity |]). destruct Hc. }
  destruct (handleTrack_invalid_counts sample_Date sample_Date
              sample_toISOString sample_upstream 1705312800000
              request_invalid sample_world Hascii Hwf)
    as (answer & code & Hrun & Hstatus & Hcode & _ & Horder & _);
    [vm_compute; reflexivity | vm_compute; reflexivity |].
  exists answer, code.
  split; [exact Hrun |]. split; [exact Hstatus |]. split; [exact Hcode |].
  apply Horder; vm_compute; reflexivity.
Defined.

Lemma handleTrack_not_found_iff_witness :
  exists answer,
    fst (Track.handleTrack sample_Date sample_Date sample_toISOString
           empty_upstream 1705312800000 sample_request sample_world)
    = Returned answer
    /\ Track.http_status answer = 404.
Proof.
  destruct (handleTrack_not_found_iff sample_Date sample_Date
              sample_toISOString empty_upstream 1705312800000
              sample_request sample_world (ByEmail "ann@example.com")
              {| status := 200; orders := None |})
    as (answer & Hrun & Hiff & _);
    [vm_compute; reflexivity | vm_compute; reflexivity | reflexivity
    | reflexivity |].
  exists answer. split; [auto |]. apply Hiff. split; reflexivity.
Defined.

Lemma handleTrack_orderNumber_round_trip_witness :
  exists answer,
    fst (Track.handleTrack sample_Date sample_Date sample_toISOString
           sample_upstream 1705312800000 request_by_number sample_world)
    = Returned answer
    /\ orderNumber_of answer = Some "1001"%string.
Proof.
  apply (handleTrack_orderNumber_round_trip sample_Date sample_Date
           sample_toISOString sample_upstream 1705312800000
           request_by_number sample_world "1001"
           {| status := 200; orders := Some [order_ann; order_bob] |}
           order_bob);
    [vm_compute; reflexivity | vm_compute; reflexivity | reflexivity
    | discriminate | reflexivity | reflexivity | vm_compute; reflexivity
    | reflexivity].
Defined.

(** ** Email validation *)

Lemma Matches_class_inv (p : ascii -> bool) (s : string) :
  Matches (Class p) s -> exists c, s = String c EmptyString /\ p c = true.
Proof. intros H. inversion H; subst. eauto. Qed.

Lemma Matches_seq_inv (r1 r2 : regex) (s : string) :
  Matches (Seq r1 r2) s ->
  exists s1 s2, s = String.append s1 s2 /\ Matches r1 s1 /\ Matches r2 s2.
Proof. intros H. inversion H; subst. eauto. Qed.

(** X17: [validateEmail] accepts an ASCII string exactly when it reads
    local@domain.tld where the three parts are not empty and hold neither
    [@] nor white space; in particular an accepted address has exactly one
    [@], followed somewhere by a dot that is neither next to it nor last. *)
Theorem validateEmail_iff (s : string) :
  all_chars ascii_char s ->
  validateEmail s = true <->
  exists local domain tld,
    s = String.append local
          (String.append "@" (String.append domain (String.append "." tld)))
    /\ local <> EmptyString /\ all_chars email_char local
    /\ domain <> EmptyString /\ all_chars email_char domain
    /\ tld <> EmptyString /\ all_chars email_char tld.
Proof.
  intros _. unfold validateEmail, emailRegex. rewrite test_Matches. split.
  - intros H.
    apply Matches_seq_inv in H as (local & s1 & -> & Hlocal & H).
    apply Matches_seq_inv in H as (at_ & s2 & -> & Hat & H).
    apply Matches_seq_inv in H as (domain & s3 & -> & Hdomain & H).
    apply Matches_seq_inv in H as (dot & tld & -> & Hdot & Htld).
    apply Matches_class_inv in Hat as (c & -> & Hc).
    apply Matches_class_inv in Hdot as (d & -> & Hd).
    apply Ascii.eqb_eq in Hc, Hd. subst c d.
    apply Matches_plus_class in Hlocal, Hdomain, Htld.
    exists local, domain, tld. tauto.
  - intros (local & domain & tld & -> & H1 & H2 & H3 & H4 & H5 & H6).
    repeat constructor; try (apply Matches_plus_class; auto).
Qed.

Lemma validateEmail_iff_witness :
  validateEmail "ann@example.com" = true.
Proof.
  apply (validateEmail_iff "ann@example.com").
  - intros c Hc. simpl in Hc.
    repeat (destruct Hc as [<- | Hc]; [reflexivity |]). destruct Hc.
  - exists "ann"%string, "example"%string, "com"%string.
    split; [reflexivity |].
    repeat split; try discriminate;
      intros c Hc; simpl in Hc;
      repeat (destruct Hc as [<- | Hc]; [reflexivity |]); destruct Hc.
Defined.

(** ** CORS headers *)

(** X18: the [Access-Control-Allow-Origin] header that [handleCORS] sets
    never carries an origin outside the allow list: it is the origin of the
    request when that origin is in the list, [*] when the request has no
    origin (or an empty one), and absent for any other origin; the three
    other CORS headers are always set. *)
Theorem handleCORS_allow_origin (origin : option string) :
  handleCORS origin !! "Access-Control-Allow-Origin"%string
  = (if JS.truthy origin
     then if bool_decide (default ""%string origin ∈ allowedOrigins)
          then origin else None
     else Some "*"%string)
  /\ (forall value,
        handleCORS origin !! "Access-Control-Allow-Origin"%string = Some value ->
        value = "*"%string \/ value ∈ allowedOrigins)
  /\ handleCORS origin !! "Access-Control-Allow-Credentials"%string
     = Some "true"%string
  /\ handleCORS origin !! "Access-Control-Allow-Methods"%string
     = Some "GET, POST, OPTIONS"%string
  /\ is_Some (handleCORS origin !! "Access-Control-Allow-Headers"%string).
Proof.
  unfold handleCORS.
  destruct (JS.truthy origin) eqn:Horigin; cbn [andb negb].
  - destruct origin as [o |]; [| discriminate]. cbn [default from_option id].
    destruct (bool_decide (o ∈ allowedOrigins)) eqn:Hallowed.
    + apply bool_decide_eq_true in Hallowed.
      rewrite lookup_insert_eq.
      repeat split; try (rewrite lookup_insert_ne by discriminate);
        try reflexivity; try (eexists; reflexivity).
      intros value [= <-]. auto.
    + repeat split; try reflexivity; try (eexists; reflexivity).
      intros value H. vm_compute in H. discriminate.
  - rewrite lookup_insert_eq.
    repeat split; try (rewrite lookup_insert_ne by discriminate);
      try reflexivity; try (eexists; reflexivity).
    intros value [= <-]. auto.
Qed.

(** ** The Express server and the worker on upstream failures *)

(** X20: for every HTTP status from 100 to 599 that the upstream store may
    answer with, the Express server, which compares the status as a number,
    and the worker, which searches the text of the error message, give the
    same error answer: HTTP status, error, message and code. *)
Theorem on_error_variants_agree (status : Z) :
  100 <= status <= 599 ->
  Track.on_error (api_error status) = Express.on_error (Some status).
Proof.
  intros Hrange.
  assert (Hall : forallb
            (fun s =>
               match Track.on_error (api_error s), Express.on_error (Some s) with
               | {| Track.http_status := h1; Track.body := Track.Failure e1 m1 c1 |},
                 {| Track.http_status := h2; Track.body := Track.Failure e2 m2 c2 |} =>
                   (h1 =? h2) && String.eqb e1 e2 && String.eqb m1 m2
                   && String.eqb c1 c2
               | _, _ => false
               end)
            (seqZ 100 500) = true) by (vm_compute; reflexivity).
  rewrite forallb_forall in Hall. specialize (Hall status).
  assert (Hin : In status (seqZ 100 500))
    by (apply list_elem_of_In, elem_of_seqZ; lia).
  specialize (Hall Hin).
  destruct (Track.on_error (api_error status)) as [h1 [e1 m1 c1 | d1]];
    destruct (Express.on_error (Some status)) as [h2 [e2 m2 c2 | d2]];
    try discriminate.
  rewrite !andb_true_iff in Hall. destruct Hall as [[[Hh He] Hm] Hc].
  apply Z.eqb_eq in Hh. apply String.eqb_eq in He, Hm, Hc. subst. reflexivity.
Qed.

Lemma on_error_variants_agree_witness :
  Track.on_error (api_error 502) = Express.on_error (Some 502).
Proof. apply (on_error_variants_agree 502). lia. Defined.

(** ** Rate limiting of a sequence of requests *)

Section Serving.

Variable Date : string -> option Z.
Variable dayjs : string -> option Z.
Variable toISOString : Z -> string.
Variable upstream : Query -> Fetched.

Lemma on_error_not_429 (message : string) :
  (Track.http_status (Track.on_error message) =? 429) = false.
Proof.
  unfold Track.on_error.
  repeat match goal with
         | |- context [if ?c then _ else _] => destruct c
         end; reflexivity.
Qed.

Lemma handleTrack_limiter (now : Z) (request : Track.Request) (w : World) :
  let called :=
    isAllowed (Track.clientIP request) 100 (15 * 60 * 1000) now (limiter w) in
  let result :=
    Track.handleTrack Date dayjs toISOString upstream now request w in
  not_limited (fst result) = fst called
  /\ limiter (snd result) = snd called.
Proof.
  intros called result. subst called result.
  destruct (fst (isAllowed (Track.clientIP request) 100 (15 * 60 * 1000) now
                   (limiter w))) eqn:Hallowed.
  - destruct (valid_request request) eqn:Hvalid.
    + rewrite handleTrack_admitted by auto. rewrite getOrder_unfold.
      destruct (query_of _ _) as [q |]; [| split; reflexivity].
      destruct (upstream q) as [r | e].
      * destruct (ok r).
        -- destruct (select_order Date _ _ _); split; reflexivity.
        -- simpl. rewrite on_error_not_429. split; reflexivity.
      * simpl. rewrite on_error_not_429. split; reflexivity.
    + destruct (handleTrack_invalid Date dayjs toISOString upstream now
                  request w Hallowed Hvalid) as (code & Hrun & _).
      rewrite Hrun. split; reflexivity.
  - rewrite handleTrack_rejected by auto. split; reflexivity.
Qed.

Lemma serve_run (requests : list (Track.Request * Z)) (w : World) :
  map not_limited (fst (serve Date dayjs toISOString upstream requests w))
  = fst (run 100 (15 * 60 * 1000) (calls_of requests) (limiter w))
  /\ limiter (snd (serve Date dayjs toISOString upstream requests w))
     = snd (run 100 (15 * 60 * 1000) (calls_of requests) (limiter w)).
Proof.
  revert w. induction requests as [| [request now] requests IH]; intros w.
  - split; reflexivity.
  - cbn [serve calls_of map run fst snd].
    fold (calls_of requests).
    destruct (handleTrack_limiter now request w) as [Hanswer Hlimiter].
    cbv zeta in Hanswer, Hlimiter.
    destruct (Track.handleTrack Date dayjs toISOString upstream now request w)
      as [answer w'].
    destruct (isAllowed (Track.clientIP request) 100 (15 * 60 * 1000) now
                (limiter w)) as [b this'].
    simpl in Hanswer, Hlimiter. subst b this'.
    specialize (IH w'). destruct IH as [IHanswers IHlimiter].
    destruct (serve Date dayjs toISOString upstream requests w')
      as [answers w''].
    destruct (run 100 (15 * 60 * 1000) (calls_of requests) (limiter w'))
      as [bs this''].
    simpl in *. subst. split; reflexivity.
Qed.

(** X21: when requests are served one after the other at non-decreasing
    times by a worker that has just started, a request is answered 429
    exactly when at least 100 earlier requests of the same client, made
    within the 15 minutes before it, were not themselves answered 429;
    requests of other clients, rejected requests and the outcome of the
    lookup do not count. *)
Theorem serve_rate_limit (requests : list (Track.Request * Z))
    (request : Track.Request) (now : Z) :
  nondecreasing (map snd (requests ++ [(request, now)])) ->
  let earlier :=
    map not_limited
      (fst (serve Date dayjs toISOString upstream requests sample_world)) in
  map not_limited
    (fst (serve Date dayjs toISOString upstream (requests ++ [(request, now)])
            sample_world))
  = earlier
    ++ [bool_decide
          (Z.of_nat
             (length
                (in_window (15 * 60 * 1000) now
                   (admitted (Track.clientIP request) (calls_of requests)
                      earlier))) < 100)].
Proof.
  intros Hnd earlier. subst earlier.
  destruct (serve_run (requests ++ [(request, now)]) sample_world) as [-> _].
  destruct (serve_run requests sample_world) as [-> _].
  unfold calls_of. rewrite map_app. simpl.
  apply run_admits; [lia |].
  rewrite map_app, map_map. simpl.
  rewrite map_app in Hnd. exact Hnd.
Qed.

End Serving.

Lemma serve_rate_limit_witness :
  map not_limited
    (fst (serve sample_Date sample_Date sample_toISOString sample_upstream
            [(sample_request, 0); (request_invalid, 5)] sample_world))
  = [true; true].
Proof.
  change (map not_limited
            (fst (serve sample_Date sample_Date sample_toISOString
                    sample_upstream
                    ([(sample_request, 0)] ++ [(request_invalid, 5)])
                    sample_world)) = [true; true]).
  rewrite (serve_rate_limit sample_Date sample_Date sample_toISOString
             sample_upstream [(sample_request, 0)] request_invalid 5).
  - vm_compute. reflexivity.
  - simpl. repeat split; repeat constructor; lia.
Defined.
